(** * CmpStreamPrefetcher: a stream prefetcher over a replacement-managed table

    Shallow embedding of [src/CmpStreamPrefetcher.h].  Machine integers are
    values of [Z] with the wrap-around of every C++ conversion written out;
    the stream table is a list of slots in index order. *)

From Stdlib Require Import ZArith Lia Bool List.
From stdpp Require Import base list.

Local Open Scope Z_scope.

(** ** Machine integers *)

Module Word.

(** Value of an unsigned [w]-bit object after storing [x] into it. *)
Definition unsigned (w x : Z) : Z := x mod 2 ^ w.

(** Value of a signed [w]-bit object after storing [x] into it
    (two's complement conversion). *)
Definition signed (w x : Z) : Z := (x + 2 ^ (w - 1)) mod 2 ^ w - 2 ^ (w - 1).

End Word.

(** [uint32] and [int32] are the 32-bit types the source names. *)
Definition uint32 (x : Z) : Z := Word.unsigned 32 x.
Definition int32 (x : Z) : Z := Word.signed 32 x.

(** Modelled from the spec: [Types.h], which declares [addr_t], is not among
    the sources.  The spec speaks of virtual and physical addresses and asks
    for care with underflow of their differences.  The source takes [llabs]
    (the [long long] absolute value) of the difference between the anchor
    and the access, which tells an access above the anchor from a far one
    only if the difference is 64 bits wide: [addr_t] is taken as the
    unsigned 64-bit integer, and [long long] as the signed 64-bit integer. *)
Definition addr_t (x : Z) : Z := Word.unsigned 64 x.
Definition int64 (x : Z) : Z := Word.signed 64 x.

(** [llabs] applied to an [addr_t] argument: the argument is converted to
    [long long] first. *)
Definition llabs (x : Z) : Z := Z.abs (int64 x).

(** ** Data model *)

(** [enum StreamDirection { FORWARD = 1, BACKWARD = -1, NONE = 0 }] *)
Inductive StreamDirection := FORWARD | BACKWARD | NONE.

(** The integer an enumerator promotes to in arithmetic. *)
Definition direction_value (d : StreamDirection) : Z :=
  match d with FORWARD => 1 | BACKWARD => -1 | NONE => 0 end.

Definition is_FORWARD (d : StreamDirection) : bool :=
  match d with FORWARD => true | _ => false end.

Definition is_BACKWARD (d : StreamDirection) : bool :=
  match d with BACKWARD => true | _ => false end.

(** [struct StreamEntry] *)
Record StreamEntry := {
  allocMissAddress : Z;
  ip : Z;
  sp : Z;
  ep : Z;
  psp : Z;
  pep : Z;
  trainHits : Z;
  trained : bool;
  direction : StreamDirection
}.

(** Assignments to the fields the source writes after construction. *)
Definition set_sp (v : Z) (e : StreamEntry) : StreamEntry :=
  {| allocMissAddress := allocMissAddress e; ip := ip e; sp := v; ep := ep e;
     psp := psp e; pep := pep e; trainHits := trainHits e;
     trained := trained e; direction := direction e |}.

Definition set_ep (v : Z) (e : StreamEntry) : StreamEntry :=
  {| allocMissAddress := allocMissAddress e; ip := ip e; sp := sp e; ep := v;
     psp := psp e; pep := pep e; trainHits := trainHits e;
     trained := trained e; direction := direction e |}.

Definition set_pep (v : Z) (e : StreamEntry) : StreamEntry :=
  {| allocMissAddress := allocMissAddress e; ip := ip e; sp := sp e; ep := ep e;
     psp := psp e; pep := v; trainHits := trainHits e;
     trained := trained e; direction := direction e |}.

Definition set_trainHits (v : Z) (e : StreamEntry) : StreamEntry :=
  {| allocMissAddress := allocMissAddress e; ip := ip e; sp := sp e; ep := ep e;
     psp := psp e; pep := pep e; trainHits := v;
     trained := trained e; direction := direction e |}.

Definition set_trained (v : bool) (e : StreamEntry) : StreamEntry :=
  {| allocMissAddress := allocMissAddress e; ip := ip e; sp := sp e; ep := ep e;
     psp := psp e; pep := pep e; trainHits := trainHits e;
     trained := v; direction := direction e |}.

Definition set_direction (v : StreamDirection) (e : StreamEntry) : StreamEntry :=
  {| allocMissAddress := allocMissAddress e; ip := ip e; sp := sp e; ep := ep e;
     psp := psp e; pep := pep e; trainHits := trainHits e;
     trained := trained e; direction := v |}.

(** Modelled from the spec: [MemoryRequest.h] is not among the sources.  A
    request carries its access type, virtual and physical address,
    instruction pointer and instruction count, and the identifiers the
    prefetch constructor copies.  The request kinds are the ones the spec
    lists: plain reads, read-for-ownership, writes, write-backs and
    prefetches.  The initiator arguments of the constructor ([COMPONENT],
    [this]) are the same for every prefetch built here and are left out. *)
Module MemoryRequest.

Inductive Type_ := READ | READ_FOR_WRITE | WRITE | WRITEBACK | PREFETCH.

Record t := {
  type : Type_;
  cpuID : Z;
  cmpID : Z;
  virtualAddress : Z;
  physicalAddress : Z;
  size : Z;
  currentCycle : Z;
  icount : Z;
  ip : Z
}.

End MemoryRequest.

(** The parameters of the component ([AddParameter]); [_tablePolicy] is the
    [TablePolicy] argument of the table below. *)
Record Config := {
  _blockSize : Z;
  _prefetchOnWrite : bool;
  _tableSize : Z;
  _numTrains : Z;
  _trainDistance : Z;
  _distance : Z;
  _degree : Z
}.

(** The values the constructor sets. *)
Definition default_config : Config :=
  {| _blockSize := 64; _prefetchOnWrite := false; _tableSize := 16;
     _numTrains := 2; _trainDistance := 16; _distance := 24; _degree := 4 |}.

(** Every parameter is a [uint32]; a block has at least one byte. *)
Definition is_uint32 (x : Z) : Prop := 0 <= x < 2 ^ 32.

Definition wf_config (cfg : Config) : Prop :=
  0 < _blockSize cfg < 2 ^ 32 /\ is_uint32 (_tableSize cfg) /\
  is_uint32 (_numTrains cfg) /\ is_uint32 (_trainDistance cfg) /\
  is_uint32 (_distance cfg) /\ is_uint32 (_degree cfg).

(** [StartSimulation]: both products are computed in [uint32] and stored in
    an [addr_t]. *)
Definition _trainAddrDistance (cfg : Config) : Z :=
  uint32 (_trainDistance cfg * _blockSize cfg).

Definition _prefetchAddrDistance (cfg : Config) : Z :=
  uint32 (_distance cfg * _blockSize cfg).

(** Modelled from the spec: the macros [VBLOCK_ADDRESS] and [PBLOCK_ADDRESS]
    are not among the sources; the spec has the access address "normalized to
    its containing block (block-aligned down)". *)
Definition BLOCK_ADDRESS (a blockSize : Z) : Z := a / blockSize * blockSize.

Definition VBLOCK_ADDRESS (request : MemoryRequest.t) (blockSize : Z) : Z :=
  BLOCK_ADDRESS (MemoryRequest.virtualAddress request) blockSize.

Definition PBLOCK_ADDRESS (request : MemoryRequest.t) (blockSize : Z) : Z :=
  BLOCK_ADDRESS (MemoryRequest.physicalAddress request) blockSize.

(** ** Stream Matcher: the test of one row (lines 218-236) *)

Definition stream_hit (cfg : Config) (vcla : Z) (entry : StreamEntry) : bool :=
  if negb (trained entry) then
    llabs (addr_t (allocMissAddress entry - vcla)) <? _trainAddrDistance cfg
  else
    (sp entry <=? vcla) && (ep entry >=? vcla).

(** ** Trainer (lines 250-298) *)

(** The block [if (!entry.trained) { ... }].  [trainHits] is an [int]; its
    increment is taken to wrap at the ends of the type. *)

Definition train (cfg : Config) (vcla pcla : Z) (entry : StreamEntry) : StreamEntry :=
  if trained entry then entry
  else
    let entry :=
      if allocMissAddress entry <? vcla then
        match direction entry with
        | FORWARD =>
            let entry := set_trainHits (int32 (trainHits entry + 1)) entry in
            if vcla >? ep entry then set_pep pcla (set_ep vcla entry) else entry
        | BACKWARD | NONE =>
            set_pep pcla (set_ep vcla (set_direction FORWARD (set_trainHits 1 entry)))
        end
      else
        match direction entry with
        | BACKWARD =>
            let entry := set_trainHits (int32 (trainHits entry + 1)) entry in
            if vcla <? ep entry then set_pep pcla (set_ep vcla entry) else entry
        | FORWARD | NONE =>
            set_pep pcla (set_ep vcla (set_direction BACKWARD (set_trainHits 1 entry)))
        end in
    (* [int >= uint32] compares after converting the [int] to [uint32] *)
    if uint32 (trainHits entry) >=? _numTrains cfg then set_trained true entry
    else entry.

(** ** Prefetch Issuer (lines 301-341) *)

(** [maxPrefetches]: an [addr_t] quotient stored into an [int32]. *)
Definition maxPrefetches (cfg : Config) (entry : StreamEntry) : Z :=
  if is_FORWARD (direction entry) then
    let maxAddress :=
      addr_t (sp entry + addr_t (_prefetchAddrDistance cfg + _blockSize cfg)) in
    int32 (addr_t (maxAddress - ep entry) / _blockSize cfg)
  else
    let minAddress :=
      addr_t (sp entry - addr_t (_prefetchAddrDistance cfg + _blockSize cfg)) in
    int32 (addr_t (ep entry - minAddress) / _blockSize cfg).

(** [numPrefetches]: the comparison and the conditional expression mix
    [int32] and [uint32], so both are evaluated in [uint32]; the result is
    stored into an [int32]. *)
Definition numPrefetches (cfg : Config) (entry : StreamEntry) : Z :=
  let m := uint32 (maxPrefetches cfg entry) in
  int32 (if m <? _degree cfg then m else _degree cfg).

(** One step of the stream's end pointers: [direction * _blockSize] is an
    [int] times a [uint32], hence a [uint32], added to an [addr_t]. *)
Definition advance (cfg : Config) (entry : StreamEntry) : StreamEntry :=
  let step := uint32 (direction_value (direction entry) * _blockSize cfg) in
  set_pep (addr_t (pep entry + step)) (set_ep (addr_t (ep entry + step)) entry).

Definition make_prefetch (cfg : Config) (request : MemoryRequest.t)
    (entry : StreamEntry) : MemoryRequest.t :=
  {| MemoryRequest.type := MemoryRequest.PREFETCH;
     MemoryRequest.cpuID := MemoryRequest.cpuID request;
     MemoryRequest.cmpID := MemoryRequest.cmpID request;
     MemoryRequest.virtualAddress := ep entry;
     MemoryRequest.physicalAddress := pep entry;
     MemoryRequest.size := _blockSize cfg;
     MemoryRequest.currentCycle := MemoryRequest.currentCycle request;
     MemoryRequest.icount := MemoryRequest.icount request;
     MemoryRequest.ip := MemoryRequest.ip request |}.

(** The loop [for (int32 i = 0; i < numPrefetches; i ++)], by the number of
    iterations left; the requests are listed in the order they are sent. *)
Fixpoint issue_loop (n : nat) (cfg : Config) (request : MemoryRequest.t)
    (entry : StreamEntry) : StreamEntry * list MemoryRequest.t :=
  match n with
  | O => (entry, [])
  | S n' =>
      let entry := advance cfg entry in
      let prefetch := make_prefetch cfg request entry in
      let '(entry', sent) := issue_loop n' cfg request entry in
      (entry', prefetch :: sent)
  end.

(** The window slide after the loop. *)
Definition slide (cfg : Config) (entry : StreamEntry) : StreamEntry :=
  if is_FORWARD (direction entry) &&
     (addr_t (ep entry - sp entry) >? _prefetchAddrDistance cfg) then
    set_sp (addr_t (ep entry - _prefetchAddrDistance cfg)) entry
  else if is_BACKWARD (direction entry) &&
          (addr_t (sp entry - ep entry) >? _prefetchAddrDistance cfg) then
    set_sp (addr_t (ep entry + _prefetchAddrDistance cfg)) entry
  else entry.

(** The block [if (entry.trained) { ... }]: the entry afterwards, the
    prefetches sent and the amount added to the counter. *)
Definition issue (cfg : Config) (request : MemoryRequest.t) (entry : StreamEntry)
    : StreamEntry * list MemoryRequest.t * Z :=
  if trained entry then
    let numPrefetches := numPrefetches cfg entry in
    let '(entry, sent) := issue_loop (Z.to_nat numPrefetches) cfg request entry in
    (slide cfg entry, sent, numPrefetches)
  else (entry, [], 0).

(** ** Stream table *)

(** [table_t <uint32, StreamEntry>::entry]: what [entry_at_index] returns. *)
Record row := {
  valid : bool;
  key : Z;
  value : StreamEntry
}.

(** Modelled from the spec: [GenericTable.h] is not among the sources.  The
    spec describes the table as a capacity-bounded associative store with
    insert, point lookup and update, iteration over all slots (valid or
    not), invalidate-by-key and a touch that only updates the eviction
    state; the eviction policy is an external strategy.  A policy is taken
    as a parameter: its state, how the table's operations update it, and
    the slot it gives up when no slot is free, which is a slot of the
    table. *)
Record TablePolicy := {
  pstate : Type;
  p_start : nat -> pstate;
  p_read : nat -> pstate -> pstate;
  p_insert : nat -> pstate -> pstate;
  p_invalidate : nat -> pstate -> pstate;
  p_victim : pstate -> nat -> nat;
  p_victim_lt : forall ps n, (0 < n)%nat -> (p_victim ps n < n)%nat
}.

Definition empty_entry : StreamEntry :=
  {| allocMissAddress := 0; ip := 0; sp := 0; ep := 0; psp := 0; pep := 0;
     trainHits := 0; trained := false; direction := NONE |}.

Definition invalid_row : row :=
  {| valid := false; key := 0; value := empty_entry |}.

(** The slot of a key: the first valid row that holds it. *)
Fixpoint index_of (k : Z) (rows : list row) : option nat :=
  match rows with
  | [] => None
  | r :: rows' =>
      if valid r && (key r =? k) then Some O else S <$> index_of k rows'
  end.

(** The first slot that holds no valid row. *)
Fixpoint free_slot (rows : list row) : option nat :=
  match rows with
  | [] => None
  | r :: rows' => if valid r then S <$> free_slot rows' else Some O
  end.

Module GenericTable.
Section WithPolicy.

Variable pol : TablePolicy.

(** Modelled from the spec: the slots in index order and the state of the
    eviction policy. *)
Record t := {
  slots : list row;
  repl : pstate pol
}.

Definition SetTableParameters (size : Z) : t :=
  {| slots := replicate (Z.to_nat size) invalid_row;
     repl := p_start pol (Z.to_nat size) |}.

Definition entry_at_index (i : nat) (tbl : t) : row :=
  match slots tbl !! i with
  | Some r => r
  | None => invalid_row
  end.

(** The touch: only the eviction state changes. *)
Definition read (k : Z) (tbl : t) : t :=
  match index_of k (slots tbl) with
  | Some i => {| slots := slots tbl; repl := p_read pol i (repl tbl) |}
  | None => tbl
  end.

(** [operator[]]: the value a key maps to. *)
Definition get (k : Z) (tbl : t) : option StreamEntry :=
  i ← index_of k (slots tbl); value <$> slots tbl !! i.

(** A write through the reference [operator[]] returned: the row keeps
    its key and stays valid. *)
Definition set (k : Z) (v : StreamEntry) (tbl : t) : t :=
  match index_of k (slots tbl) with
  | Some i =>
      let r := entry_at_index i tbl in
      {| slots := <[i := {| valid := valid r; key := key r; value := v |}]>
                    (slots tbl);
         repl := repl tbl |}
  | None => tbl
  end.

Definition invalidate (k : Z) (tbl : t) : t :=
  match index_of k (slots tbl) with
  | Some i =>
      let r := entry_at_index i tbl in
      {| slots := <[i := {| valid := false; key := key r; value := value r |}]>
                    (slots tbl);
         repl := p_invalidate pol i (repl tbl) |}
  | None => tbl
  end.

(** The slot an insertion fills: a free one if there is any, else the one
    the policy evicts. *)
Definition insert_slot (tbl : t) : nat :=
  match free_slot (slots tbl) with
  | Some i => i
  | None => p_victim pol (repl tbl) (length (slots tbl))
  end.

Definition insert (k : Z) (v : StreamEntry) (tbl : t) : t :=
  let i := insert_slot tbl in
  {| slots := <[i := {| valid := true; key := k; value := v |}]> (slots tbl);
     repl := p_insert pol i (repl tbl) |}.

End WithPolicy.
End GenericTable.

Arguments GenericTable.slots {pol} _.
Arguments GenericTable.repl {pol} _.
Arguments GenericTable.entry_at_index {pol} _ _.
Arguments GenericTable.read {pol} _ _.
Arguments GenericTable.get {pol} _ _.
Arguments GenericTable.set {pol} _ _ _.
Arguments GenericTable.invalidate {pol} _ _.
Arguments GenericTable.insert_slot {pol} _.
Arguments GenericTable.insert {pol} _ _ _.

(** The policy the constructor names, ["lru"]: the slots from the most to
    the least recently used. *)
Definition lru_touch (i : nat) (ps : list nat) : list nat :=
  i :: filter (fun j => j ≠ i) ps.

Definition lru_victim (ps : list nat) (n : nat) : nat :=
  let v := List.last ps O in if (v <? n)%nat then v else O.

Lemma lru_victim_lt (ps : list nat) (n : nat) : (0 < n)%nat -> (lru_victim ps n < n)%nat.
Proof.
  intros Hn. unfold lru_victim.
  destruct (Nat.ltb_spec (List.last ps O) n); lia.
Qed.

Definition lru : TablePolicy :=
  {| pstate := list nat;
     p_start := fun _ => [];
     p_read := lru_touch;
     p_insert := lru_touch;
     p_invalidate := fun i ps => filter (fun j => j ≠ i) ps;
     p_victim := lru_victim;
     p_victim_lt := lru_victim_lt |}.

(** ** The component *)

Section Prefetcher.

Variable pol : TablePolicy.
Variable cfg : Config.

(** The members [ProcessRequest] reads and writes; [num_prefetches] is the
    counter, taken as the running sum of what [ADD_TO_COUNTER] adds. *)
Record state := {
  _streamTable : GenericTable.t pol;
  _runningIndex : Z;
  num_prefetches : Z
}.

Definition StartSimulation : state :=
  {| _streamTable := GenericTable.SetTableParameters pol (_tableSize cfg);
     _runningIndex := 0;
     num_prefetches := 0 |}.

(** Stream Matcher: the loop of lines 207-237, from slot [i] with [n]
    slots to go. *)
Fixpoint find_stream_from (n i : nat) (vcla : Z) (tbl : GenericTable.t pol)
    : option Z :=
  match n with
  | O => None
  | S n' =>
      let row := GenericTable.entry_at_index i tbl in
      if negb (valid row) then find_stream_from n' (S i) vcla tbl
      else if stream_hit cfg vcla (value row) then Some (key row)
      else find_stream_from n' (S i) vcla tbl
  end.

Definition find_stream (vcla : Z) (tbl : GenericTable.t pol) : option Z :=
  find_stream_from (Z.to_nat (_tableSize cfg)) O vcla tbl.

(** Redundancy Reaper: the condition of lines 349-354. *)
Definition redundant (entry other : StreamEntry) : bool :=
  (is_FORWARD (direction entry) &&
     (((sp other <=? ep entry) && (sp other >=? sp entry)) ||
      ((ep other <=? ep entry) && (ep other >=? sp entry)))) ||
  (is_BACKWARD (direction entry) &&
     (((sp other <=? sp entry) && (sp other >=? ep entry)) ||
      ((ep other <=? sp entry) && (ep other >=? ep entry)))).

(** The loop of lines 344-357; each row is read from the table as the
    earlier iterations left it. *)
Fixpoint remove_redundant_from (n i : nat) (k : Z) (entry : StreamEntry)
    (tbl : GenericTable.t pol) : GenericTable.t pol :=
  match n with
  | O => tbl
  | S n' =>
      let row := GenericTable.entry_at_index i tbl in
      let tbl :=
        if negb (valid row) then tbl
        else if key row =? k then tbl
        else if redundant entry (value row)
             then GenericTable.invalidate (key row) tbl
             else tbl in
      remove_redundant_from n' (S i) k entry tbl
  end.

Definition remove_redundant (k : Z) (entry : StreamEntry)
    (tbl : GenericTable.t pol) : GenericTable.t pol :=
  remove_redundant_from (Z.to_nat (_tableSize cfg)) O k entry tbl.

(** Allocator: the entry of lines 363-372. *)
Definition new_entry (request : MemoryRequest.t) (vcla pcla : Z) : StreamEntry :=
  {| allocMissAddress := vcla; ip := MemoryRequest.ip request;
     sp := vcla; ep := vcla; psp := pcla; pep := pcla;
     trainHits := 0; trained := false; direction := NONE |}.

(** Which requests the two early returns let through. *)
Definition ignored (request : MemoryRequest.t) : bool :=
  match MemoryRequest.type request with
  | MemoryRequest.WRITE | MemoryRequest.WRITEBACK | MemoryRequest.PREFETCH => true
  | MemoryRequest.READ_FOR_WRITE => negb (_prefetchOnWrite cfg)
  | MemoryRequest.READ => false
  end.

(** What one call leaves behind: the busy cycles returned, the members
    afterwards and the requests handed to [SendToNextComponent]. *)
Record outcome := {
  cycles : Z;
  after : state;
  sent : list MemoryRequest.t
}.

Definition ProcessRequest (request : MemoryRequest.t) (s : state) : outcome :=
  if ignored request then {| cycles := 0; after := s; sent := [] |}
  else
    let vcla := VBLOCK_ADDRESS request (_blockSize cfg) in
    let pcla := PBLOCK_ADDRESS request (_blockSize cfg) in
    match find_stream vcla (_streamTable s) with
    | Some k =>
        let tbl := GenericTable.read k (_streamTable s) in
        match GenericTable.get k tbl with
        | Some entry =>
            let entry := train cfg vcla pcla entry in
            let '(entry, prefetches, n) := issue cfg request entry in
            let tbl := GenericTable.set k entry tbl in
            let tbl := remove_redundant k entry tbl in
            {| cycles := 0;
               after := {| _streamTable := tbl;
                           _runningIndex := _runningIndex s;
                           num_prefetches := num_prefetches s + n |};
               sent := prefetches |}
        | None =>
            (* not reached: the key was read from a valid row *)
            {| cycles := 0; after := s; sent := [] |}
        end
    | None =>
        let entry := new_entry request vcla pcla in
        {| cycles := 0;
           after := {| _streamTable :=
                         GenericTable.insert (_runningIndex s) entry (_streamTable s);
                       _runningIndex := uint32 (_runningIndex s + 1);
                       num_prefetches := num_prefetches s |};
           sent := [] |}
    end.

(** A sequence of calls, first request first: the members afterwards and
    everything sent. *)
Fixpoint run (requests : list MemoryRequest.t) (s : state)
    : state * list MemoryRequest.t :=
  match requests with
  | [] => (s, [])
  | request :: rest =>
      let o := ProcessRequest request s in
      let '(s', out) := run rest (after o) in
      (s', sent o ++ out)
  end.

End Prefetcher.

Arguments _streamTable {pol} _.
Arguments _runningIndex {pol} _.
Arguments num_prefetches {pol} _.
Arguments cycles {pol} _.
Arguments after {pol} _.
Arguments sent {pol} _.

(** ** Notions the properties are stated with *)

(** The direction the Trainer reads off a training hit: forward when the
    access lies above the anchor, backward otherwise (the [else] branch
    takes the anchor itself too). *)
Definition hit_direction (entry : StreamEntry) (vcla : Z) : StreamDirection :=
  if allocMissAddress entry <? vcla then FORWARD else BACKWARD.

(** A record in training after one backward hit below its anchor. *)
Definition backward_once : StreamEntry :=
  {| allocMissAddress := 1984; ip := 7; sp := 1984; ep := 1920;
     psp := 6080; pep := 6016; trainHits := 1; trained := false;
     direction := BACKWARD |}.

(** A read access, as the examples use it. *)
Definition read_at (va pa pc n : Z) : MemoryRequest.t :=
  {| MemoryRequest.type := MemoryRequest.READ;
     MemoryRequest.cpuID := 0; MemoryRequest.cmpID := 0;
     MemoryRequest.virtualAddress := va; MemoryRequest.physicalAddress := pa;
     MemoryRequest.size := 8; MemoryRequest.currentCycle := 0;
     MemoryRequest.icount := n; MemoryRequest.ip := pc |}.

(** The room of the Prefetch Issuer in the spec's words, over the integers:
    forward [(sp + distance * blockSize + blockSize - ep) / blockSize],
    backward [(ep - (sp - distance * blockSize - blockSize)) / blockSize]. *)
Definition available_room (cfg : Config) (entry : StreamEntry) : Z :=
  if is_FORWARD (direction entry) then
    (sp entry + _distance cfg * _blockSize cfg + _blockSize cfg - ep entry)
    / _blockSize cfg
  else
    (ep entry - (sp entry - _distance cfg * _blockSize cfg - _blockSize cfg))
    / _blockSize cfg.

(** The issue count in the spec's words: [min (room, degree)], and zero
    when the room is zero or negative. *)
Definition clamped_issue_count (cfg : Config) (entry : StreamEntry) : Z :=
  Z.max 0 (Z.min (available_room cfg entry) (_degree cfg)).

(** The number of prefetches one run of the Prefetch Issuer sends. *)
Definition issue_count (cfg : Config) (request : MemoryRequest.t)
    (entry : StreamEntry) : Z :=
  Z.of_nat (length (snd (fst (issue cfg request entry)))).

(** The constructor's parameters with a look-ahead of 8 blocks, shorter than
    the training window of 16. *)
Definition short_distance_config : Config :=
  {| _blockSize := 64; _prefetchOnWrite := false; _tableSize := 16;
     _numTrains := 2; _trainDistance := 16; _distance := 8; _degree := 4 |}.

(** What a prefetch takes from the access that triggers it. *)
Definition from_request (request p : MemoryRequest.t) : Prop :=
  MemoryRequest.ip p = MemoryRequest.ip request /\
  MemoryRequest.icount p = MemoryRequest.icount request.

(** The table maps keys to records: no two valid rows hold the same key. *)
Definition keys_distinct (rows : list row) : Prop :=
  forall i j ri rj,
    rows !! i = Some ri -> rows !! j = Some rj ->
    valid ri = true -> valid rj = true -> key ri = key rj -> i = j.

(** What the Redundancy Reaper tests, in words: an end point of the other
    record, [sp] or [ep], lies in the extent of the advanced record, which is
    [[sp, ep]] when that record is forward and [[ep, sp]] when it is
    backward. *)
Definition endpoint_inside (entry other : StreamEntry) : Prop :=
  (direction entry = FORWARD /\
   (sp entry <= sp other <= ep entry \/ sp entry <= ep other <= ep entry)) \/
  (direction entry = BACKWARD /\
   (ep entry <= sp other <= sp entry \/ ep entry <= ep other <= sp entry)).

(** The extent of the advanced record, oriented by its direction, and the
    extent of another record: the addresses between its two end points. *)
Definition oriented_extent (entry : StreamEntry) : Z * Z :=
  if is_BACKWARD (direction entry) then (ep entry, sp entry)
  else (sp entry, ep entry).

Definition extent (other : StreamEntry) : Z * Z :=
  (Z.min (sp other) (ep other), Z.max (sp other) (ep other)).

(** The spec's words for the redundancy test: the two extents intersect,
    that is, some address lies in both. *)
Definition extents_intersect (entry other : StreamEntry) : bool :=
  let '(lo, hi) := oriented_extent entry in
  let '(lo', hi') := extent other in
  (lo <=? hi) && (lo <=? hi') && (lo' <=? hi).

(** A row as the Redundancy Reaper leaves it. *)
Definition reap_row (k : Z) (entry : StreamEntry) (r : row) : row :=
  if valid r && negb (key r =? k) && redundant entry (value r)
  then {| valid := false; key := key r; value := value r |}
  else r.

(** Two trained forward streams, the second containing the first, in the
    first two slots of a table of 16. *)
Definition narrow_stream : StreamEntry :=
  {| allocMissAddress := 640; ip := 7; sp := 640; ep := 704;
     psp := 4736; pep := 4800; trainHits := 2; trained := true;
     direction := FORWARD |}.

Definition wide_stream : StreamEntry :=
  {| allocMissAddress := 512; ip := 9; sp := 576; ep := 768;
     psp := 4672; pep := 4864; trainHits := 2; trained := true;
     direction := FORWARD |}.

Definition nested_table : GenericTable.t lru :=
  GenericTable.Build_t lru
    ({| valid := true; key := 0; value := narrow_stream |} ::
     {| valid := true; key := 1; value := wide_stream |} ::
     replicate 14 invalid_row)
    [O; 1%nat].

(** The training counter of a record: never negative, and below the
    threshold while the record is in training (a record just allocated has
    counter 0 even with a threshold of 0). *)
Definition entry_ok (cfg : Config) (e : StreamEntry) : Prop :=
  0 <= trainHits e /\
  (trained e = false -> trainHits e < Z.max 1 (_numTrains cfg)).

Definition table_ok (cfg : Config) (rows : list row) : Prop :=
  forall i r, rows !! i = Some r -> valid r = true -> entry_ok cfg (value r).

(** A row that was left alone or invalidated: same key, same record, and
    valid only if it was valid. *)
Definition row_cleared (r r' : row) : Prop :=
  key r' = key r /\ value r' = value r /\ (valid r' = true -> valid r = true).

(** The record a hit leaves behind: Trainer, then Prefetch Issuer. *)
Definition hit_update (cfg : Config) (request : MemoryRequest.t)
    (entry : StreamEntry) : StreamEntry :=
  fst (fst (issue cfg request
              (train cfg (VBLOCK_ADDRESS request (_blockSize cfg))
                 (PBLOCK_ADDRESS request (_blockSize cfg)) entry))).

(** The row the Allocator writes for a request in a given state. *)
Definition allocated_row {pol : TablePolicy} (cfg : Config)
    (request : MemoryRequest.t) (s : state pol) : row :=
  {| valid := true; key := _runningIndex s;
     value := new_entry request (VBLOCK_ADDRESS request (_blockSize cfg))
                (PBLOCK_ADDRESS request (_blockSize cfg)) |}.

(** Whether a request reaches the Allocator: it is not ignored and the
    Stream Matcher finds no record for it. *)
Definition allocates {pol : TablePolicy} (cfg : Config)
    (request : MemoryRequest.t) (s : state pol) : bool :=
  negb (ignored cfg request) &&
  match find_stream pol cfg (VBLOCK_ADDRESS request (_blockSize cfg))
          (_streamTable s) with
  | Some _ => false
  | None => true
  end.

(** The keys the Allocator assigns along a sequence of calls, first call
    first. *)
Fixpoint assigned_keys {pol : TablePolicy} (cfg : Config)
    (requests : list MemoryRequest.t) (s : state pol) : list Z :=
  match requests with
  | [] => []
  | request :: rest =>
      (if allocates cfg request s then [_runningIndex s] else []) ++
      assigned_keys cfg rest (after (ProcessRequest pol cfg request s))
  end.

(** A trained backward stream whose [ep] lies below its [sp], alone in a
    table of 16. *)
Definition backward_stream : StreamEntry :=
  {| allocMissAddress := 1984; ip := 7; sp := 1984; ep := 1600;
     psp := 6080; pep := 5696; trainHits := 2; trained := true;
     direction := BACKWARD |}.

Definition backward_table : GenericTable.t lru :=
  GenericTable.Build_t lru
    ({| valid := true; key := 0; value := backward_stream |} ::
     replicate 15 invalid_row)
    [O].

(** The keys of a state: distinct among the valid rows, and all below the
    running index. *)
Definition keys_ok {pol : TablePolicy} (s : state pol) : Prop :=
  keys_distinct (GenericTable.slots (_streamTable s)) /\
  forall i r, GenericTable.slots (_streamTable s) !! i = Some r ->
              valid r = true -> key r < _runningIndex s.

(** The prefetch request the Prefetch Issuer builds for a pair of block
    addresses. *)
Definition prefetch_at (cfg : Config) (request : MemoryRequest.t) (va pa : Z)
    : MemoryRequest.t :=
  {| MemoryRequest.type := MemoryRequest.PREFETCH;
     MemoryRequest.cpuID := MemoryRequest.cpuID request;
     MemoryRequest.cmpID := MemoryRequest.cmpID request;
     MemoryRequest.virtualAddress := va;
     MemoryRequest.physicalAddress := pa;
     MemoryRequest.size := _blockSize cfg;
     MemoryRequest.currentCycle := MemoryRequest.currentCycle request;
     MemoryRequest.icount := MemoryRequest.icount request;
     MemoryRequest.ip := MemoryRequest.ip request |}.

(** The offset between the physical and the virtual address, as an
    [addr_t]. *)
Definition address_offset (pa va : Z) : Z := addr_t (pa - va).

(** A request with another access type. *)
Definition set_type (ty : MemoryRequest.Type_) (request : MemoryRequest.t)
    : MemoryRequest.t :=
  {| MemoryRequest.type := ty;
     MemoryRequest.cpuID := MemoryRequest.cpuID request;
     MemoryRequest.cmpID := MemoryRequest.cmpID request;
     MemoryRequest.virtualAddress := MemoryRequest.virtualAddress request;
     MemoryRequest.physicalAddress := MemoryRequest.physicalAddress request;
     MemoryRequest.size := MemoryRequest.size request;
     MemoryRequest.currentCycle := MemoryRequest.currentCycle request;
     MemoryRequest.icount := MemoryRequest.icount request;
     MemoryRequest.ip := MemoryRequest.ip request |}.

(** The shape of a record: in training [sp] is still the anchor, with [ep]
    above it once the record tracks forward and at or below it once it
    tracks backward; a record without a direction is as the Allocator made
    it. *)
Definition entry_shape (e : StreamEntry) : Prop :=
  (trained e = false -> sp e = allocMissAddress e) /\
  (direction e = NONE ->
   trained e = false /\ trainHits e = 0 /\
   ep e = allocMissAddress e /\ pep e = psp e) /\
  (trained e = false -> direction e = FORWARD -> sp e < ep e) /\
  (trained e = false -> direction e = BACKWARD -> ep e <= sp e).

(** No valid row holds a record that has had a training hit. *)
Definition all_untouched (rows : list row) : Prop :=
  forall i r, rows !! i = Some r -> valid r = true ->
              trained (value r) = false /\ direction (value r) = NONE.



(** * Properties *)

(** ** Machine integers *)

Lemma uint32_small (x : Z) : 0 <= x < 2 ^ 32 -> uint32 x = x.
Proof. intros H. unfold uint32, Word.unsigned. now apply Z.mod_small. Qed.

Lemma uint32_range (x : Z) : 0 <= uint32 x < 2 ^ 32.
Proof. unfold uint32, Word.unsigned. apply Z.mod_pos_bound. lia. Qed.

Lemma uint32_le (x : Z) : 0 <= x -> uint32 x <= x.
Proof. intros H. unfold uint32, Word.unsigned. apply Z.mod_le; lia. Qed.

Lemma addr_small (x : Z) : 0 <= x < 2 ^ 64 -> addr_t x = x.
Proof. intros H. unfold addr_t, Word.unsigned. now apply Z.mod_small. Qed.

Lemma int32_small (x : Z) : - 2 ^ 31 <= x < 2 ^ 31 -> int32 x = x.
Proof.
  intros H. unfold int32, Word.signed.
  change (32 - 1) with 31. rewrite Z.mod_small; lia.
Qed.

(** A value of [uint32] stored into an [int32] never grows. *)
Lemma int32_le (x : Z) : 0 <= x < 2 ^ 32 -> int32 x <= x.
Proof.
  intros H. unfold int32, Word.signed. change (32 - 1) with 31.
  destruct (Z.lt_ge_cases x (2 ^ 31)) as [Hlt | Hge].
  - rewrite Z.mod_small; lia.
  - replace (x + 2 ^ 31) with ((x - 2 ^ 31) + 1 * 2 ^ 32) by lia.
    rewrite Z.mod_add by lia. rewrite Z.mod_small; lia.
Qed.

(** ** Stream Matcher *)

Lemma stream_hit_trained (cfg : Config) (vcla : Z) (entry : StreamEntry) :
  trained entry = true ->
  stream_hit cfg vcla entry = true <-> sp entry <= vcla <= ep entry.
Proof.
  intros Ht. unfold stream_hit. rewrite Ht. cbn [negb].
  rewrite andb_true_iff, Z.geb_leb, !Z.leb_le. tauto.
Qed.

Section Matcher.

Variable pol : TablePolicy.
Variable cfg : Config.

(** The scan passes over the rows that are not valid or do not match. *)
Lemma find_stream_from_skip (m n i : nat) (vcla : Z) (tbl : GenericTable.t pol) :
  (forall j r, (i <= j < i + m)%nat -> GenericTable.slots tbl !! j = Some r ->
               valid r = true -> stream_hit cfg vcla (value r) = false) ->
  find_stream_from pol cfg (m + n) i vcla tbl =
  find_stream_from pol cfg n (i + m) vcla tbl.
Proof.
  revert i. induction m as [| m IH]; intros i Hskip.
  - now rewrite Nat.add_0_r.
  - cbn [Nat.add find_stream_from].
    assert (Hnext : find_stream_from pol cfg (m + n) (S i) vcla tbl =
                    find_stream_from pol cfg n (i + S m) vcla tbl).
    { rewrite IH.
      - f_equal. lia.
      - intros j r Hj. apply Hskip. lia. }
    unfold GenericTable.entry_at_index.
    destruct (GenericTable.slots tbl !! i) as [r |] eqn:Hr.
    + destruct (valid r) eqn:Hv; cbn [negb]; [| exact Hnext].
      rewrite (Hskip i r) by (auto; lia). exact Hnext.
    + exact Hnext.
Qed.

(** The scan stops at the first valid row that matches. *)
Lemma find_stream_from_stop (n i : nat) (vcla : Z) (tbl : GenericTable.t pol) (r : row) :
  GenericTable.slots tbl !! i = Some r -> valid r = true ->
  stream_hit cfg vcla (value r) = true ->
  find_stream_from pol cfg (S n) i vcla tbl = Some (key r).
Proof.
  intros Hr Hv Hh. cbn [find_stream_from].
  unfold GenericTable.entry_at_index. rewrite Hr.
  now rewrite Hv, Hh.
Qed.

Lemma find_stream_from_pass (n i : nat) (vcla : Z) (tbl : GenericTable.t pol) (r : row) :
  GenericTable.slots tbl !! i = Some r ->
  stream_hit cfg vcla (value r) = false ->
  find_stream_from pol cfg (S n) i vcla tbl =
  find_stream_from pol cfg n (S i) vcla tbl.
Proof.
  intros Hr Hh. cbn [find_stream_from].
  unfold GenericTable.entry_at_index. rewrite Hr.
  rewrite Hh. now destruct (valid r).
Qed.

(** C1. A valid record in the active phase that the scan reaches (no
    earlier valid row matches the access) is reported exactly when
    [sp <= vcla <= ep]: inside the window the matcher returns the record's
    key, outside it the scan goes on with the next slot.  A record whose
    [ep] lies below its [sp], as for a backward stream that has advanced,
    passes the test for no address at all, the addresses between [ep] and
    [sp] included. *)
Theorem stream_matcher_active_window
    (vcla : Z) (tbl : GenericTable.t pol) (i : nat) (r : row) :
  (i < Z.to_nat (_tableSize cfg))%nat ->
  GenericTable.slots tbl !! i = Some r ->
  valid r = true ->
  trained (value r) = true ->
  (forall j r', (j < i)%nat -> GenericTable.slots tbl !! j = Some r' ->
                valid r' = true -> stream_hit cfg vcla (value r') = false) ->
  (stream_hit cfg vcla (value r) = true <->
     sp (value r) <= vcla <= ep (value r)) /\
  (sp (value r) <= vcla <= ep (value r) ->
     find_stream pol cfg vcla tbl = Some (key r)) /\
  (~ sp (value r) <= vcla <= ep (value r) ->
     find_stream pol cfg vcla tbl =
     find_stream_from pol cfg (Z.to_nat (_tableSize cfg) - S i) (S i) vcla tbl) /\
  (ep (value r) < sp (value r) ->
     forall a, stream_hit cfg a (value r) = false).
Proof.
  intros Hi Hr Hv Ht Hbefore.
  pose proof (stream_hit_trained cfg vcla (value r) Ht) as Hiff.
  assert (Hreach : find_stream pol cfg vcla tbl =
                   find_stream_from pol cfg
                     (S (Z.to_nat (_tableSize cfg) - S i)) i vcla tbl).
  { unfold find_stream.
    replace (Z.to_nat (_tableSize cfg))
      with (i + S (Z.to_nat (_tableSize cfg) - S i))%nat at 1 by lia.
    rewrite find_stream_from_skip.
    - reflexivity.
    - intros j r' Hj. apply Hbefore. lia. }
  split; [exact Hiff |]. split; [| split].
  - intros Hin. rewrite Hreach.
    apply find_stream_from_stop; auto. now apply Hiff.
  - intros Hout. rewrite Hreach.
    apply find_stream_from_pass with (r := r); auto.
    destruct (stream_hit cfg vcla (value r)) eqn:Hh; auto.
    exfalso. apply Hout. now apply Hiff.
  - intros Hrev a.
    destruct (stream_hit cfg a (value r)) eqn:Hh; auto.
    apply (stream_hit_trained cfg a (value r) Ht) in Hh. lia.
Qed.

End Matcher.

Lemma stream_matcher_active_window_witness :
  find_stream lru default_config 704 nested_table = Some 0 /\
  (forall a, stream_hit default_config a backward_stream = false).
Proof.
  split.
  - destruct (stream_matcher_active_window lru default_config 704 nested_table O
                {| valid := true; key := 0; value := narrow_stream |})
      as (_ & Hin & _).
    + vm_compute. lia.
    + reflexivity.
    + reflexivity.
    + reflexivity.
    + intros j r' Hj. lia.
    + apply Hin. cbn. lia.
  - destruct (stream_matcher_active_window lru default_config 1800 backward_table O
                {| valid := true; key := 0; value := backward_stream |})
      as (_ & _ & _ & Hrev).
    + vm_compute. lia.
    + reflexivity.
    + reflexivity.
    + reflexivity.
    + intros j r' Hj. lia.
    + apply Hrev. cbn. lia.
Defined.

(** ** Trainer *)

(** The promotion test, on a counter within the range of [int]. *)
Lemma promotion_test (cfg : Config) (n : Z) :
  0 <= n < 2 ^ 31 -> (uint32 n >=? _numTrains cfg) = (_numTrains cfg <=? n).
Proof. intros Hn. rewrite uint32_small by lia. apply Z.geb_leb. Qed.




(** Training hits on the anchor itself, one after the other, starting from
    a record just allocated. *)
Lemma train_at_anchor_repeat (cfg : Config) (request : MemoryRequest.t)
    (vcla pcla : Z) (k : nat) :
  Z.of_nat k < _numTrains cfg < 2 ^ 31 ->
  let e := Nat.iter (S k) (train cfg vcla pcla) (new_entry request vcla pcla) in
  direction e = BACKWARD /\ trainHits e = Z.of_nat (S k) /\
  allocMissAddress e = vcla /\ sp e = vcla /\ ep e = vcla /\
  trained e = (_numTrains cfg <=? Z.of_nat (S k)).
Proof.
  induction k as [| k IH]; intros Hk.
  - change (Z.of_nat 1) with 1.
    cbn [Nat.iter]. unfold train, new_entry. cbn.
    rewrite Z.ltb_irrefl. cbn.
    rewrite promotion_test by lia.
    destruct (_numTrains cfg <=? 1); cbn; auto 10.
  - assert (Hk' : Z.of_nat k < _numTrains cfg < 2 ^ 31) by lia.
    specialize (IH Hk'). cbn zeta in IH |- *.
    set (e := Nat.iter (S k) (train cfg vcla pcla) (new_entry request vcla pcla)) in *.
    change (Nat.iter (S (S k)) (train cfg vcla pcla) (new_entry request vcla pcla))
      with (train cfg vcla pcla e).
    clearbody e. destruct IH as (Hd & Hh & Ha & Hs & He & Ht).
    assert (Htf : trained e = false).
    { rewrite Ht. apply Z.leb_gt. lia. }
    unfold train. rewrite Htf, Ha, Z.ltb_irrefl, Hd. cbn.
    rewrite Hh, He, Z.ltb_irrefl. cbn.
    rewrite (int32_small (Z.of_nat (S k) + 1)) by lia.
    rewrite (promotion_test cfg (Z.of_nat (S k) + 1)) by lia.
    replace (Z.of_nat (S k) + 1) with (Z.of_nat (S (S k))) by lia.
    destruct (_numTrains cfg <=? Z.of_nat (S (S k))); cbn; auto 10.
Qed.

(** C10. A training hit on the anchor address itself takes the backward
    branch: a record with no direction or tracking forward is reset to
    [trainHits = 1] and [BACKWARD]; a record tracking backward has its
    counter incremented; the promotion test follows either way.  So
    [_numTrains] accesses to the address that allocated a record make it a
    trained backward stream. *)
Theorem train_at_anchor (cfg : Config) (pcla : Z) (entry : StreamEntry) :
  trained entry = false ->
  let entry' := train cfg (allocMissAddress entry) pcla entry in
  direction entry' = BACKWARD /\
  (direction entry <> BACKWARD -> trainHits entry' = 1) /\
  (direction entry = BACKWARD -> trainHits entry' = int32 (trainHits entry + 1)) /\
  trained entry' = (uint32 (trainHits entry') >=? _numTrains cfg) /\
  (0 < _numTrains cfg < 2 ^ 31 ->
   forall request vcla pcla',
     let e := Nat.iter (Z.to_nat (_numTrains cfg)) (train cfg vcla pcla')
                (new_entry request vcla pcla') in
     trained e = true /\ direction e = BACKWARD /\
     trainHits e = _numTrains cfg).
Proof.
  intros Ht. cbn zeta. split; [| split; [| split; [| split]]].
  - unfold train. rewrite Ht, Z.ltb_irrefl.
    destruct (direction entry) eqn:Hd; cbn;
      repeat match goal with
             | |- context [if ?c then _ else _] => destruct c; cbn
             end; congruence.
  - intros Hd. unfold train. rewrite Ht, Z.ltb_irrefl.
    destruct (direction entry); try congruence; cbn;
      repeat match goal with
             | |- context [if ?c then _ else _] => destruct c; cbn
             end; reflexivity.
  - intros Hd. unfold train. rewrite Ht, Z.ltb_irrefl, Hd. cbn.
    repeat match goal with
           | |- context [if ?c then _ else _] => destruct c; cbn
           end; reflexivity.
  - unfold train. rewrite Ht, Z.ltb_irrefl.
    destruct (direction entry); cbn;
      repeat match goal with
             | |- context [if ?c then _ else _] => destruct c eqn:?; cbn in *
             end; congruence.
  - intros Hn request vcla pcla'.
    destruct (Z.to_nat (_numTrains cfg)) as [| k] eqn:Hk; [lia |].
    destruct (train_at_anchor_repeat cfg request vcla pcla' k)
      as (Hd & Hh & _ & _ & _ & Htr); [lia |].
    rewrite Htr, Hd, Hh. repeat split; [apply Z.leb_le |]; lia.
Qed.

Lemma train_at_anchor_witness :
  (let entry' := train default_config 1984 6080 backward_once in
   direction entry' = BACKWARD /\ trainHits entry' = 2 /\ trained entry' = true) /\
  (let e := Nat.iter 2 (train default_config 640 4736)
              (new_entry (read_at 640 4736 7 1) 640 4736) in
   trained e = true /\ direction e = BACKWARD /\ trainHits e = 2).
Proof.
  pose proof (train_at_anchor default_config 6080 backward_once eq_refl)
    as (Hd & _ & Hh & Ht & Hrep).
  change (allocMissAddress backward_once) with 1984 in *.
  split.
  - split; [exact Hd |]. split; [exact (Hh eq_refl) |]. rewrite Ht. reflexivity.
  - apply (Hrep ltac:(cbn; lia) (read_at 640 4736 7 1) 640 4736).
Defined.

(** ** Ignored requests *)

(** C8. A write, a write-back or a prefetch, and a read-for-write while
    [_prefetchOnWrite] is off, returns 0 busy cycles, sends nothing and
    leaves every member as it was: the table with its slots and eviction
    state, the running index and the counter. *)
Theorem ignored_requests_pass_through
    (pol : TablePolicy) (cfg : Config) (request : MemoryRequest.t) (s : state pol) :
  MemoryRequest.type request = MemoryRequest.WRITE \/
  MemoryRequest.type request = MemoryRequest.WRITEBACK \/
  MemoryRequest.type request = MemoryRequest.PREFETCH \/
  (MemoryRequest.type request = MemoryRequest.READ_FOR_WRITE /\
   _prefetchOnWrite cfg = false) ->
  let o := ProcessRequest pol cfg request s in
  cycles o = 0 /\ after o = s /\ sent o = [].
Proof.
  intros Hty. unfold ProcessRequest.
  assert (Hig : ignored cfg request = true).
  { unfold ignored. destruct Hty as [H | [H | [H | [H Hw]]]]; rewrite H; auto.
    now rewrite Hw. }
  rewrite Hig. cbn. auto.
Qed.

Lemma ignored_requests_pass_through_witness :
  let request :=
    {| MemoryRequest.type := MemoryRequest.READ_FOR_WRITE;
       MemoryRequest.cpuID := 0; MemoryRequest.cmpID := 0;
       MemoryRequest.virtualAddress := 1000; MemoryRequest.physicalAddress := 5096;
       MemoryRequest.size := 8; MemoryRequest.currentCycle := 0;
       MemoryRequest.icount := 3; MemoryRequest.ip := 7 |} in
  let s := fst (run lru default_config [read_at 1000 5096 7 1]
                  (StartSimulation lru default_config)) in
  let o := ProcessRequest lru default_config request s in
  cycles o = 0 /\ after o = s /\ sent o = [].
Proof.
  intros request s.
  apply (ignored_requests_pass_through lru default_config request s).
  right. right. right. split; reflexivity.
Defined.

(** ** Prefetch Issuer: what a prefetch carries *)

Lemma issue_loop_from_request (n : nat) (cfg : Config)
    (request : MemoryRequest.t) (entry : StreamEntry) :
  Forall (from_request request) (snd (issue_loop n cfg request entry)).
Proof.
  revert entry. induction n as [| n IH]; intros entry; cbn [issue_loop].
  - constructor.
  - specialize (IH (advance cfg entry)).
    destruct (issue_loop n cfg request (advance cfg entry)) as [entry' out].
    cbn [snd] in *. constructor; [| exact IH]. split; reflexivity.
Qed.

Lemma issue_from_request (cfg : Config) (request : MemoryRequest.t)
    (entry : StreamEntry) :
  Forall (from_request request) (snd (fst (issue cfg request entry))).
Proof.
  unfold issue. destruct (trained entry); [| constructor].
  pose proof (issue_loop_from_request
                (Z.to_nat (numPrefetches cfg entry)) cfg request entry) as H.
  destruct (issue_loop _ cfg request entry) as [entry' out]. exact H.
Qed.

(** C3, as the code has it.  Every prefetch a call sends carries the
    instruction pointer and the instruction count of the access that
    triggered it; the [ip] stored in the record at allocation is not read. *)
Theorem prefetch_carries_request_ip
    (pol : TablePolicy) (cfg : Config) (request : MemoryRequest.t) (s : state pol) :
  Forall (from_request request) (sent (ProcessRequest pol cfg request s)).
Proof.
  unfold ProcessRequest.
  destruct (ignored cfg request); [constructor |].
  destruct (find_stream pol cfg _ (_streamTable s)) as [k |]; [| constructor].
  destruct (GenericTable.get k _) as [entry |]; [| constructor].
  pose proof (issue_from_request cfg request
                (train cfg (VBLOCK_ADDRESS request (_blockSize cfg))
                   (PBLOCK_ADDRESS request (_blockSize cfg)) entry)) as H.
  destruct (issue cfg request _) as [[entry' out] n]. exact H.
Qed.

(** C3, as stated, fails: a record allocated by the instruction at 99 and
    trained by the instruction at 5 sends prefetches that carry 5. *)
Lemma prefetch_ip_is_not_origin_ip :
  let s := fst (run lru default_config
                  [read_at 1000 5096 99 1; read_at 1064 5160 5 2]
                  (StartSimulation lru default_config)) in
  let o := ProcessRequest lru default_config (read_at 1128 5224 5 3) s in
  exists p entry,
    In p (sent o) /\
    GenericTable.get 0 (_streamTable (after o)) = Some entry /\
    ip entry = 99 /\
    MemoryRequest.ip p <> ip entry.
Proof.
  cbv zeta.
  eexists. eexists. split; [| split; [| split]].
  - vm_compute. left. reflexivity.
  - vm_compute. reflexivity.
  - reflexivity.
  - vm_compute. discriminate.
Qed.

(** ** Prefetch Issuer: how many prefetches *)

Lemma issue_loop_length (n : nat) (cfg : Config) (request : MemoryRequest.t)
    (entry : StreamEntry) :
  length (snd (issue_loop n cfg request entry)) = n.
Proof.
  revert entry. induction n as [| n IH]; intros entry; cbn [issue_loop].
  - reflexivity.
  - specialize (IH (advance cfg entry)).
    destruct (issue_loop n cfg request (advance cfg entry)) as [entry' out].
    cbn [snd length] in *. now rewrite IH.
Qed.

Lemma issue_count_trained (cfg : Config) (request : MemoryRequest.t)
    (entry : StreamEntry) :
  trained entry = true ->
  issue_count cfg request entry = Z.max 0 (numPrefetches cfg entry).
Proof.
  intros Ht. unfold issue_count, issue. rewrite Ht.
  pose proof (issue_loop_length (Z.to_nat (numPrefetches cfg entry))
                cfg request entry) as Hlen.
  destruct (issue_loop _ cfg request entry) as [entry' out].
  cbn [fst snd] in *. rewrite Hlen. lia.
Qed.

Lemma numPrefetches_le_degree (cfg : Config) (entry : StreamEntry) :
  is_uint32 (_degree cfg) -> numPrefetches cfg entry <= _degree cfg.
Proof.
  intros Hd. unfold numPrefetches, is_uint32 in *.
  pose proof (uint32_range (maxPrefetches cfg entry)) as Hm.
  destruct (Z.ltb_spec (uint32 (maxPrefetches cfg entry)) (_degree cfg)).
  - etransitivity; [apply int32_le |]; lia.
  - apply int32_le. lia.
Qed.

(** The degree cap holds on every call of the Prefetch Issuer. *)
Lemma issue_count_le_degree (cfg : Config) (request : MemoryRequest.t)
    (entry : StreamEntry) :
  is_uint32 (_degree cfg) -> issue_count cfg request entry <= _degree cfg.
Proof.
  intros Hd. destruct (trained entry) eqn:Ht.
  - rewrite issue_count_trained by exact Ht.
    pose proof (numPrefetches_le_degree cfg entry Hd). unfold is_uint32 in Hd. lia.
  - unfold issue_count, issue. rewrite Ht. cbn. unfold is_uint32 in Hd. lia.
Qed.

(** With room that is not negative (and neither the look-ahead nor the
    addresses wrapping), the count is [min (room, degree)]. *)
Lemma issue_count_with_room (cfg : Config) (request : MemoryRequest.t)
    (entry : StreamEntry) :
  wf_config cfg ->
  _distance cfg * _blockSize cfg < 2 ^ 32 ->
  trained entry = true ->
  0 <= ep entry < 2 ^ 64 ->
  (if is_FORWARD (direction entry)
   then 0 <= sp entry /\
        ep entry <= sp entry + _distance cfg * _blockSize cfg + _blockSize cfg < 2 ^ 64
   else _distance cfg * _blockSize cfg + _blockSize cfg <= sp entry < 2 ^ 64 /\
        sp entry - _distance cfg * _blockSize cfg - _blockSize cfg <= ep entry) ->
  available_room cfg entry < 2 ^ 31 ->
  issue_count cfg request entry = Z.min (available_room cfg entry) (_degree cfg).
Proof.
  intros (Hbs & _ & _ & _ & Hdist & Hdeg) Hpad Ht Hep Hrange Hroom.
  unfold is_uint32 in *.
  rewrite issue_count_trained by exact Ht.
  assert (Hmax : maxPrefetches cfg entry = available_room cfg entry /\
                 0 <= available_room cfg entry).
  { unfold maxPrefetches, available_room, _prefetchAddrDistance in *.
    rewrite (uint32_small (_distance cfg * _blockSize cfg)) by nia.
    rewrite (addr_small (_distance cfg * _blockSize cfg + _blockSize cfg)) by nia.
    destruct (is_FORWARD (direction entry)).
    - rewrite (addr_small (sp entry + _)) by nia.
      rewrite (addr_small (sp entry + _ - ep entry)) by nia.
      assert (0 <= (sp entry + (_distance cfg * _blockSize cfg + _blockSize cfg)
                    - ep entry) / _blockSize cfg)
        by (apply Z.div_pos; lia).
      replace (sp entry + _distance cfg * _blockSize cfg + _blockSize cfg - ep entry)
        with (sp entry + (_distance cfg * _blockSize cfg + _blockSize cfg) - ep entry)
        in * by lia.
      split; [apply int32_small |]; lia.
    - rewrite (addr_small (sp entry - _)) by nia.
      rewrite (addr_small (ep entry - _)) by nia.
      assert (0 <= (ep entry - (sp entry -
                      (_distance cfg * _blockSize cfg + _blockSize cfg)))
                   / _blockSize cfg)
        by (apply Z.div_pos; lia).
      replace (sp entry - _distance cfg * _blockSize cfg - _blockSize cfg)
        with (sp entry - (_distance cfg * _blockSize cfg + _blockSize cfg))
        in * by lia.
      split; [apply int32_small |]; lia. }
  destruct Hmax as [Hmax Hpos].
  unfold numPrefetches. rewrite Hmax.
  rewrite (uint32_small (available_room cfg entry)) by lia.
  destruct (Z.ltb_spec (available_room cfg entry) (_degree cfg)).
  - rewrite int32_small; lia.
  - rewrite int32_small; lia.
Qed.

Lemma uint32_int32 (x : Z) : uint32 (int32 x) = uint32 x.
Proof.
  unfold uint32, int32, Word.unsigned, Word.signed. change (32 - 1) with 31.
  rewrite Zminus_mod_idemp_l. f_equal. lia.
Qed.

(** With negative room the count is [_degree]: the quotient wraps to a large
    [uint32], which is not below [_degree].  (Forward streams, a block size
    that divides [2 ^ 32], room and degree within the range of [int32].) *)
Lemma issue_count_negative_room (cfg : Config) (request : MemoryRequest.t)
    (entry : StreamEntry) :
  wf_config cfg ->
  (_blockSize cfg | 2 ^ 32) ->
  _distance cfg * _blockSize cfg < 2 ^ 32 ->
  _degree cfg < 2 ^ 31 ->
  trained entry = true ->
  direction entry = FORWARD ->
  0 <= sp entry -> ep entry < 2 ^ 64 ->
  - 2 ^ 31 <= available_room cfg entry < 0 ->
  issue_count cfg request entry = _degree cfg.
Proof.
  intros (Hbs & _ & _ & _ & Hdist & Hdeg) [q Hq] Hpad Hdeg31 Ht Hd Hsp Hep Hroom.
  unfold is_uint32 in *.
  rewrite issue_count_trained by exact Ht.
  unfold available_room in Hroom. rewrite Hd in Hroom. cbn [is_FORWARD] in Hroom.
  set (x := sp entry + _distance cfg * _blockSize cfg + _blockSize cfg - ep entry)
    in *.
  assert (Hx : x < 0).
  { destruct (Z.lt_ge_cases x 0) as [Hlt | Hge]; [exact Hlt |].
    assert (0 <= x / _blockSize cfg) by (apply Z.div_pos; lia). lia. }
  assert (Hmax : uint32 (maxPrefetches cfg entry) = 2 ^ 32 + x / _blockSize cfg).
  { unfold maxPrefetches, _prefetchAddrDistance. rewrite Hd. cbn [is_FORWARD].
    rewrite (uint32_small (_distance cfg * _blockSize cfg)) by nia.
    rewrite (addr_small (_distance cfg * _blockSize cfg + _blockSize cfg)) by nia.
    rewrite (addr_small (sp entry + _)) by (unfold x in Hx; nia).
    replace (sp entry + (_distance cfg * _blockSize cfg + _blockSize cfg) - ep entry)
      with x by (unfold x; lia).
    assert (Haddr : addr_t x = x + (2 ^ 32 * q) * _blockSize cfg).
    { unfold addr_t, Word.unsigned.
      replace (2 ^ 64) with ((2 ^ 32 * q) * _blockSize cfg) by nia.
      rewrite <- (Z.mod_add x 1) by nia.
      rewrite Z.mod_small; [lia |]. unfold x in *. nia. }
    rewrite Haddr, Z.div_add by lia.
    rewrite uint32_int32. unfold uint32, Word.unsigned.
    rewrite (Z.mul_comm (2 ^ 32) q), Z.mod_add by lia.
    rewrite <- (Z.mod_add _ 1) by lia.
    rewrite Z.mod_small; lia. }
  unfold numPrefetches. rewrite Hmax.
  destruct (Z.ltb_spec (2 ^ 32 + x / _blockSize cfg) (_degree cfg)); [lia |].
  rewrite int32_small; lia.
Qed.

(** C2 at a failing input.  With a look-ahead of 8 blocks, the accesses 0,
    960, 960 train a forward stream with [sp = 0] and [ep = 960]: the room
    of the spec is [-6], so its count is [0], and the code sends [_degree =
    4] prefetches, because [maxPrefetches < _degree] compares an [int32]
    with a [uint32]. *)
Theorem negative_room_issues_degree :
  let cfg := short_distance_config in
  let s := fst (run lru cfg [read_at 0 4096 7 1; read_at 960 5056 7 2]
                  (StartSimulation lru cfg)) in
  let request := read_at 960 5056 7 3 in
  exists entry,
    GenericTable.get 0 (_streamTable s) = Some entry /\
    let entry' := train cfg 960 5056 entry in
    trained entry' = true /\ direction entry' = FORWARD /\
    sp entry' = 0 /\ ep entry' = 960 /\
    available_room cfg entry' = -6 /\
    clamped_issue_count cfg entry' = 0 /\
    maxPrefetches cfg entry' = -6 /\
    issue_count cfg request entry' = 4 /\
    map MemoryRequest.virtualAddress (sent (ProcessRequest lru cfg request s)) =
      [1024; 1088; 1152; 1216].
Proof.
  cbv zeta. eexists. split; [vm_compute; reflexivity |].
  vm_compute. repeat split; reflexivity.
Qed.

(** ** Prefetch Issuer: the window of a forward stream *)

Lemma advance_forward (cfg : Config) (entry : StreamEntry) :
  0 < _blockSize cfg < 2 ^ 32 ->
  direction entry = FORWARD ->
  0 <= ep entry -> ep entry + _blockSize cfg < 2 ^ 64 ->
  let entry' := advance cfg entry in
  ep entry' = ep entry + _blockSize cfg /\ sp entry' = sp entry /\
  direction entry' = FORWARD /\ trained entry' = trained entry.
Proof.
  intros Hbs Hd He Hw. unfold advance. rewrite Hd. cbn.
  rewrite Z.mul_1_l. destruct (_blockSize cfg) eqn:Hb; try lia.
  rewrite <- Hb in *. rewrite uint32_small by lia.
  rewrite addr_small by lia. auto.
Qed.

Lemma issue_loop_forward (n : nat) (cfg : Config) (request : MemoryRequest.t)
    (entry : StreamEntry) :
  0 < _blockSize cfg < 2 ^ 32 ->
  direction entry = FORWARD ->
  0 <= ep entry -> ep entry + Z.of_nat n * _blockSize cfg < 2 ^ 64 ->
  let entry' := fst (issue_loop n cfg request entry) in
  ep entry' = ep entry + Z.of_nat n * _blockSize cfg /\ sp entry' = sp entry /\
  direction entry' = FORWARD /\ trained entry' = trained entry.
Proof.
  intros Hbs. revert entry.
  induction n as [| n IH]; intros entry Hd He Hw; cbn [issue_loop].
  - cbn. rewrite Z.add_0_r. auto.
  - destruct (advance_forward cfg entry Hbs Hd He) as (Ha & Hs & Hd' & Ht'); [nia |].
    specialize (IH (advance cfg entry) Hd').
    destruct (issue_loop n cfg request (advance cfg entry)) as [entry' out].
    cbn [fst] in *. rewrite Ha, Hs, Ht' in IH.
    destruct IH as (He' & Hs' & Hd'' & Ht''); [lia | nia |].
    rewrite He', Hs', Hd'', Ht''. repeat split; nia.
Qed.

(** C7. The Prefetch Issuer, run on a trained forward record with
    [sp <= ep] whose prefetch addresses stay within [addr_t], leaves
    [sp <= ep] and [ep - sp <= _distance * _blockSize], slide included; the
    record stays trained and forward, so the same holds after every later
    run. *)
Theorem forward_window_bounded (cfg : Config) (request : MemoryRequest.t)
    (entry : StreamEntry) :
  wf_config cfg ->
  trained entry = true ->
  direction entry = FORWARD ->
  0 <= sp entry <= ep entry ->
  ep entry + _degree cfg * _blockSize cfg < 2 ^ 64 ->
  let entry' := fst (fst (issue cfg request entry)) in
  0 <= sp entry' <= ep entry' /\
  ep entry' - sp entry' <= _distance cfg * _blockSize cfg /\
  trained entry' = true /\ direction entry' = FORWARD.
Proof.
  intros (Hbs & _ & _ & _ & Hdist & Hdeg) Ht Hd Hord Hw.
  unfold is_uint32 in *.
  pose proof (numPrefetches_le_degree cfg entry Hdeg) as Hn.
  unfold issue. rewrite Ht.
  set (n := Z.to_nat (numPrefetches cfg entry)).
  assert (Hnn : Z.of_nat n <= _degree cfg) by lia.
  destruct (issue_loop_forward n cfg request entry Hbs Hd)
    as (He & Hs & Hd' & Ht'); [lia | nia |].
  destruct (issue_loop n cfg request entry) as [e1 out]. cbn [fst] in *.
  assert (Hpad : 0 <= _prefetchAddrDistance cfg <= _distance cfg * _blockSize cfg).
  { unfold _prefetchAddrDistance. split.
    - apply uint32_range.
    - apply uint32_le. nia. }
  unfold slide. rewrite Hd'. cbn [is_FORWARD andb].
  rewrite (addr_small (ep e1 - sp e1)) by nia.
  rewrite Z.gtb_ltb.
  destruct (Z.ltb_spec (_prefetchAddrDistance cfg) (ep e1 - sp e1)).
  - cbn. rewrite addr_small by nia.
    repeat split; try nia; solve [now rewrite Ht' | exact Hd'].
  - cbn. repeat split; try nia; solve [now rewrite Ht' | exact Hd'].
Qed.

Lemma forward_window_bounded_witness :
  let entry :=
    {| allocMissAddress := 960; ip := 99; sp := 960; ep := 2432;
       psp := 5056; pep := 6528; trainHits := 2; trained := true;
       direction := FORWARD |} in
  let entry' := fst (fst (issue default_config (read_at 1100 5196 7 4) entry)) in
  0 <= sp entry' <= ep entry' /\
  ep entry' - sp entry' <= 24 * 64 /\
  trained entry' = true /\ direction entry' = FORWARD.
Proof.
  intros entry.
  apply (forward_window_bounded default_config (read_at 1100 5196 7 4) entry).
  - unfold wf_config, is_uint32. cbn. lia.
  - reflexivity.
  - reflexivity.
  - cbn. lia.
  - cbn. lia.
Defined.

(** C7, as stated, fails where the prefetch addresses wrap around the end
    of [addr_t]: three reads at consecutive blocks 256 bytes below [2 ^ 64]
    train a forward record and send four prefetches, at [2 ^ 64 - 64], 0, 64
    and 128; the record is left trained and forward with [ep = 128] below
    [sp = 2 ^ 64 - 256], and the slide does not fire. *)
Lemma forward_window_wraps_below_start :
  let requests := [read_at 18446744073709551360 4096 7 1;
                   read_at 18446744073709551424 4160 7 2;
                   read_at 18446744073709551488 4224 7 3] in
  let r := run lru default_config requests (StartSimulation lru default_config) in
  let entry' :=
    {| allocMissAddress := 18446744073709551360; ip := 7;
       sp := 18446744073709551360; ep := 128;
       psp := 4096; pep := 4480; trainHits := 2; trained := true;
       direction := FORWARD |} in
  GenericTable.get 0 (_streamTable (fst r)) = Some entry' /\
  map MemoryRequest.virtualAddress (snd r) =
    [18446744073709551552; 0; 64; 128] /\
  trained entry' = true /\ direction entry' = FORWARD /\
  ~ (sp entry' <= ep entry').
Proof.
  vm_compute.
  split; [reflexivity |]. split; [reflexivity |]. split; [reflexivity |].
  split; [reflexivity |]. intros H. apply H. reflexivity.
Qed.

(** A training hit that leaves a record forward leaves [sp < ep]: a record
    is promoted with its window in order. *)
Lemma train_forward_ordered (cfg : Config) (vcla pcla : Z) (entry : StreamEntry) :
  trained entry = false ->
  sp entry = allocMissAddress entry ->
  let entry' := train cfg vcla pcla entry in
  sp entry' = allocMissAddress entry' /\
  (direction entry' = FORWARD -> sp entry' < ep entry').
Proof.
  intros Ht Hs. unfold train. rewrite Ht.
  destruct (Z.ltb_spec (allocMissAddress entry) vcla);
    destruct (direction entry) eqn:Hdir; cbn; rewrite ?Z.gtb_ltb;
    repeat match goal with
           | |- context [if Z.ltb ?a ?b then _ else _] =>
               destruct (Z.ltb_spec a b); cbn
           | |- context [if ?c then _ else _] => destruct c; cbn
           end;
    (split; [exact Hs | intros Hd; try congruence; lia]).
Qed.

(** ** Table operations *)

Lemma index_of_lookup (k : Z) (rows : list row) (i : nat) :
  index_of k rows = Some i ->
  exists r, rows !! i = Some r /\ valid r = true /\ key r = k.
Proof.
  revert i. induction rows as [| r0 rows IH]; intros i; cbn [index_of].
  - discriminate.
  - destruct (valid r0 && (key r0 =? k)) eqn:Hc.
    + intros [= <-]. apply andb_true_iff in Hc as [Hv Hk].
      apply Z.eqb_eq in Hk. exists r0. auto.
    + destruct (index_of k rows) as [i' |]; cbn; [| discriminate].
      intros [= <-]. apply (IH i'). reflexivity.
Qed.

Lemma keys_distinct_tail (r0 : row) (rows : list row) :
  keys_distinct (r0 :: rows) -> keys_distinct rows.
Proof.
  intros Hd i j ri rj Hi Hj Hvi Hvj Hk.
  specialize (Hd (S i) (S j) ri rj Hi Hj Hvi Hvj Hk). lia.
Qed.

(** In a table with distinct keys, the key of a valid row leads to its slot. *)
Lemma index_of_distinct (rows : list row) (i : nat) (r : row) :
  keys_distinct rows -> rows !! i = Some r -> valid r = true ->
  index_of (key r) rows = Some i.
Proof.
  revert i. induction rows as [| r0 rows IH]; intros i Hd Hi Hv.
  - discriminate.
  - cbn [index_of].
    destruct (valid r0 && (key r0 =? key r)) eqn:Hc.
    + apply andb_true_iff in Hc as [Hv0 Hk]. apply Z.eqb_eq in Hk.
      f_equal. apply (Hd O i r0 r); auto.
    + destruct i as [| i].
      * cbn in Hi. injection Hi as ->. rewrite Hv, Z.eqb_refl in Hc. discriminate.
      * cbn in Hi. rewrite (IH i (keys_distinct_tail _ _ Hd) Hi Hv). reflexivity.
Qed.

Lemma keys_distinct_clear (rows : list row) (i : nat) (r : row) :
  keys_distinct rows ->
  keys_distinct (<[i := {| valid := false; key := key r; value := value r |}]> rows).
Proof.
  intros Hd a b ra rb Ha Hb Hva Hvb Hk.
  destruct (decide (i = a)) as [-> | Hia].
  - apply list_lookup_insert_Some in Ha as [(_ & <- & _) | (Hne & _)];
      [discriminate | congruence].
  - destruct (decide (i = b)) as [-> | Hib].
    + apply list_lookup_insert_Some in Hb as [(_ & <- & _) | (Hne & _)];
        [discriminate | congruence].
    + rewrite list_lookup_insert_ne in Ha, Hb by auto. eauto.
Qed.

(** ** Redundancy Reaper *)

Section Reaper.

Variable pol : TablePolicy.
Variable cfg : Config.

Lemma redundant_iff (entry other : StreamEntry) :
  redundant entry other = true <-> endpoint_inside entry other.
Proof.
  unfold redundant, endpoint_inside.
  rewrite !orb_true_iff, !andb_true_iff, !orb_true_iff, !andb_true_iff,
    !Z.geb_leb, !Z.leb_le.
  destruct (direction entry); cbn; intuition (try discriminate; lia).
Qed.

(** Whatever the code removes does intersect the advanced extent. *)
Lemma redundant_intersects (entry other : StreamEntry) :
  redundant entry other = true -> extents_intersect entry other = true.
Proof.
  intros H. apply redundant_iff in H.
  unfold endpoint_inside, extents_intersect, oriented_extent, extent in *.
  destruct H as [[Hd H] | [Hd H]]; rewrite Hd; cbn;
    rewrite !andb_true_iff, !Z.leb_le; lia.
Qed.

(** Invalidating the key of a valid row clears that row and no other. *)
Lemma invalidate_slots (tbl : GenericTable.t pol) (i : nat) (r : row) :
  keys_distinct (GenericTable.slots tbl) ->
  GenericTable.slots tbl !! i = Some r -> valid r = true ->
  GenericTable.slots (GenericTable.invalidate (key r) tbl) =
  <[i := {| valid := false; key := key r; value := value r |}]>
    (GenericTable.slots tbl).
Proof.
  intros Hd Hi Hv. unfold GenericTable.invalidate.
  rewrite (index_of_distinct _ i r Hd Hi Hv). cbn.
  unfold GenericTable.entry_at_index. now rewrite Hi.
Qed.

(** The loop, slot by slot: the slots from [i] to [i + n - 1] are reaped,
    the others are as before. *)
Lemma remove_redundant_from_slots (n i : nat) (k : Z) (entry : StreamEntry)
    (tbl : GenericTable.t pol) (j : nat) :
  keys_distinct (GenericTable.slots tbl) ->
  GenericTable.slots (remove_redundant_from pol n i k entry tbl) !! j =
  if decide (i <= j < i + n)%nat
  then reap_row k entry <$> GenericTable.slots tbl !! j
  else GenericTable.slots tbl !! j.
Proof.
  revert i tbl. induction n as [| n IH]; intros i tbl Hd.
  - cbn. case_decide; [lia | reflexivity].
  - cbn [remove_redundant_from].
    unfold GenericTable.entry_at_index.
    destruct (GenericTable.slots tbl !! i) as [r |] eqn:Hi.
    + destruct (valid r) eqn:Hv; cbn [negb].
      * destruct (key r =? k) eqn:Hk.
        { rewrite IH by exact Hd.
          repeat case_decide; try lia; try reflexivity.
          assert (j = i) as -> by lia. rewrite Hi. cbn.
          unfold reap_row. now rewrite Hv, Hk. }
        destruct (redundant entry (value r)) eqn:Hr.
        { rewrite IH.
          - rewrite (invalidate_slots tbl i r Hd Hi Hv).
            repeat case_decide; try lia.
            + rewrite list_lookup_insert_ne by lia. reflexivity.
            + assert (j = i) as -> by lia.
              rewrite list_lookup_insert_eq by (eapply lookup_lt_Some; eauto).
              rewrite Hi. cbn. unfold reap_row. now rewrite Hv, Hk, Hr.
            + rewrite list_lookup_insert_ne by lia. reflexivity.
          - rewrite (invalidate_slots tbl i r Hd Hi Hv).
            now apply keys_distinct_clear. }
        rewrite IH by exact Hd.
        repeat case_decide; try lia; try reflexivity.
        assert (j = i) as -> by lia. rewrite Hi. cbn.
        unfold reap_row. now rewrite Hv, Hk, Hr.
      * rewrite IH by exact Hd.
        repeat case_decide; try lia; try reflexivity.
        assert (j = i) as -> by lia. rewrite Hi. cbn.
        unfold reap_row. now rewrite Hv.
    + cbn. rewrite IH by exact Hd.
      repeat case_decide; try lia; try reflexivity.
      assert (j = i) as -> by lia. now rewrite Hi.
Qed.

(** C5, as the code has it.  In a table with distinct keys, after the
    redundancy pass for the record under key [k], a valid row with another
    key has been invalidated exactly when one of its end points, [sp] or
    [ep], lies in the advanced record's extent ([[sp, ep]] forward,
    [[ep, sp]] backward); its key and value stay, and rows under [k] are
    left alone. *)
Theorem redundancy_pass_endpoints
    (k : Z) (entry : StreamEntry) (tbl : GenericTable.t pol) (i : nat) (r : row) :
  keys_distinct (GenericTable.slots tbl) ->
  (i < Z.to_nat (_tableSize cfg))%nat ->
  GenericTable.slots tbl !! i = Some r ->
  valid r = true ->
  exists r',
    GenericTable.slots (remove_redundant pol cfg k entry tbl) !! i = Some r' /\
    key r' = key r /\ value r' = value r /\
    (key r = k -> valid r' = true) /\
    (key r <> k -> (valid r' = false <-> endpoint_inside entry (value r))).
Proof.
  intros Hd Hi Hr Hv. unfold remove_redundant.
  rewrite remove_redundant_from_slots by exact Hd.
  case_decide; [| lia]. rewrite Hr. cbn.
  exists (reap_row k entry r). split; [reflexivity |].
  unfold reap_row. rewrite Hv. cbn [andb].
  destruct (Z.eqb_spec (key r) k) as [Hk | Hk]; cbn [negb andb].
  - repeat split; auto; congruence.
  - rewrite <- redundant_iff.
    destruct (redundant entry (value r)); cbn;
      repeat split; auto; congruence.
Qed.

End Reaper.

Lemma nested_table_distinct : keys_distinct (GenericTable.slots nested_table).
Proof.
  intros i j ri rj Hi Hj Hvi Hvj Hk. cbn in Hi, Hj.
  assert (Hrest : forall (n : nat) (r : row),
             replicate 14 invalid_row !! n = Some r -> valid r = true -> False).
  { intros n r Hn Hv. apply lookup_replicate in Hn as [-> _]. discriminate. }
  destruct i as [| [| i]], j as [| [| j]]; cbn in Hi, Hj;
    try reflexivity;
    try (exfalso; eapply Hrest; eassumption);
    injection Hi as <-; injection Hj as <-; discriminate.
Qed.

Lemma redundancy_pass_endpoints_witness :
  exists r',
    GenericTable.slots
      (remove_redundant lru default_config 1 wide_stream nested_table) !! O = Some r' /\
    key r' = 0 /\ value r' = narrow_stream /\
    (0 = 1 -> valid r' = true) /\
    (0 <> 1 -> (valid r' = false <-> endpoint_inside wide_stream narrow_stream)).
Proof.
  apply (redundancy_pass_endpoints lru default_config 1 wide_stream nested_table O
           {| valid := true; key := 0; value := narrow_stream |}).
  - exact nested_table_distinct.
  - vm_compute. lia.
  - reflexivity.
  - reflexivity.
Defined.

(** C5, as stated, fails: the stream in slot 1 spans 576 to 768 and so
    intersects the extent 640 to 704 of the advanced stream, yet neither of
    its end points lies in that extent, and the pass leaves it valid. *)
Lemma containing_stream_is_kept :
  extents_intersect narrow_stream wide_stream = true /\
  exists r,
    GenericTable.slots
      (remove_redundant lru default_config 0 narrow_stream nested_table) !! 1%nat
      = Some r /\
    key r = 1 /\ value r = wide_stream /\ valid r = true.
Proof.
  split; [reflexivity |].
  eexists. split; [vm_compute; reflexivity |]. repeat split.
Qed.

(** ** What one call does to a row *)

Section Rows.

Variable pol : TablePolicy.
Variable cfg : Config.

Lemma row_cleared_refl (r : row) : row_cleared r r.
Proof. unfold row_cleared. auto. Qed.

Lemma invalidate_cleared (k : Z) (tbl : GenericTable.t pol) (i : nat) (r' : row) :
  GenericTable.slots (GenericTable.invalidate k tbl) !! i = Some r' ->
  exists r, GenericTable.slots tbl !! i = Some r /\ row_cleared r r'.
Proof.
  unfold GenericTable.invalidate.
  destruct (index_of k (GenericTable.slots tbl)) as [j |] eqn:Hj; cbn.
  - destruct (index_of_lookup _ _ _ Hj) as (rj & Hrj & Hvj & Hkj).
    unfold GenericTable.entry_at_index. rewrite Hrj.
    destruct (decide (j = i)) as [-> | Hne].
    + rewrite list_lookup_insert_eq by (eapply lookup_lt_Some; eauto).
      intros [= <-]. exists rj. split; [exact Hrj |].
      unfold row_cleared. cbn. repeat split; auto.
    + rewrite list_lookup_insert_ne by exact Hne.
      intros Hi. exists r'. auto using row_cleared_refl.
  - intros Hi. exists r'. auto using row_cleared_refl.
Qed.

Lemma remove_redundant_from_cleared (n i : nat) (k : Z) (entry : StreamEntry)
    (tbl : GenericTable.t pol) (j : nat) (r' : row) :
  GenericTable.slots (remove_redundant_from pol n i k entry tbl) !! j = Some r' ->
  exists r, GenericTable.slots tbl !! j = Some r /\ row_cleared r r'.
Proof.
  revert i tbl. induction n as [| n IH]; intros i tbl; cbn [remove_redundant_from].
  - intros Hj. exists r'. auto using row_cleared_refl.
  - intros Hj. apply IH in Hj as (r1 & Hr1 & Hc1).
    destruct (negb (valid (GenericTable.entry_at_index i tbl)));
      [eauto |].
    destruct (key (GenericTable.entry_at_index i tbl) =? k); [eauto |].
    destruct (redundant entry (value (GenericTable.entry_at_index i tbl)));
      [| eauto].
    apply invalidate_cleared in Hr1 as (r & Hr & Hc).
    exists r. split; [exact Hr |].
    unfold row_cleared in *. intuition congruence.
Qed.

Lemma get_lookup (k : Z) (tbl : GenericTable.t pol) (entry : StreamEntry) :
  GenericTable.get k tbl = Some entry ->
  exists i r, index_of k (GenericTable.slots tbl) = Some i /\
              GenericTable.slots tbl !! i = Some r /\
              valid r = true /\ key r = k /\ value r = entry.
Proof.
  unfold GenericTable.get.
  destruct (index_of k (GenericTable.slots tbl)) as [i |] eqn:Hi; cbn;
    [| discriminate].
  destruct (index_of_lookup _ _ _ Hi) as (r & Hr & Hv & Hk).
  rewrite Hr. cbn. intros [= <-]. exists i, r. auto.
Qed.

Lemma read_slots (k : Z) (tbl : GenericTable.t pol) :
  GenericTable.slots (GenericTable.read k tbl) = GenericTable.slots tbl.
Proof.
  unfold GenericTable.read.
  now destruct (index_of k (GenericTable.slots tbl)).
Qed.

Lemma read_get (k : Z) (tbl : GenericTable.t pol) :
  GenericTable.get k (GenericTable.read k tbl) = GenericTable.get k tbl.
Proof. unfold GenericTable.get. now rewrite read_slots. Qed.

(** Every row after a call is a row of before that was left alone or
    invalidated, or the record of the hit after Trainer and Prefetch
    Issuer, or the row the Allocator wrote. *)
Lemma ProcessRequest_rows (request : MemoryRequest.t) (s : state pol)
    (i : nat) (r' : row) :
  GenericTable.slots (_streamTable (after (ProcessRequest pol cfg request s))) !! i
    = Some r' ->
  exists r,
    GenericTable.slots (_streamTable s) !! i = Some r /\
    (row_cleared r r' \/
     (valid r = true /\ key r' = key r /\
      value r' = hit_update cfg request (value r)) \/
     (allocates cfg request s = true /\
      i = GenericTable.insert_slot (_streamTable s) /\
      r' = allocated_row cfg request s)).
Proof.
  unfold ProcessRequest, allocates.
  destruct (ignored cfg request); cbn [negb andb after _streamTable].
  { intros Hi. exists r'. auto using row_cleared_refl. }
  destruct (find_stream pol cfg _ (_streamTable s)) as [k |] eqn:Hfind.
  - destruct (GenericTable.get k (GenericTable.read k (_streamTable s)))
      as [entry |] eqn:Hget.
    + rewrite read_get in Hget.
      destruct (get_lookup _ _ _ Hget) as (j & r & Hj & Hr & Hv & Hk & He).
      unfold hit_update.
      destruct (issue cfg request (train cfg _ _ entry)) as [[entry' out] n] eqn:Hiss.
      cbn [after _streamTable]. intros Hi.
      apply remove_redundant_from_cleared in Hi as (r1 & Hr1 & Hc1).
      unfold GenericTable.set, GenericTable.entry_at_index in Hr1.
      rewrite !read_slots, Hj, Hr in Hr1.
      cbn [GenericTable.slots] in Hr1. rewrite ?read_slots in Hr1.
      destruct (decide (j = i)) as [-> | Hne].
      * rewrite list_lookup_insert_eq in Hr1 by (eapply lookup_lt_Some; eauto).
        injection Hr1 as <-. exists r. split; [exact Hr |].
        right. left. destruct Hc1 as (Hk1 & Hv1 & _). cbn in Hk1, Hv1.
        rewrite He, Hiss. cbn. repeat split; congruence.
      * rewrite list_lookup_insert_ne in Hr1 by exact Hne.
        exists r1. auto.
    + cbn [after]. intros Hi. exists r'. auto using row_cleared_refl.
  - cbn [after _streamTable]. unfold GenericTable.insert. cbn [GenericTable.slots].
    intros Hi.
    destruct (decide (GenericTable.insert_slot (_streamTable s) = i)) as [Heq | Hne].
    + rewrite Heq in Hi.
      destruct (GenericTable.slots (_streamTable s) !! i) as [r |] eqn:Hr.
      * rewrite list_lookup_insert_eq in Hi by (eapply lookup_lt_Some; eauto).
        injection Hi as <-. exists r. split; [reflexivity |].
        right. right. repeat split; auto.
      * apply lookup_ge_None in Hr.
        rewrite list_insert_ge in Hi by exact Hr.
        apply lookup_lt_Some in Hi. lia.
    + rewrite list_lookup_insert_ne in Hi by exact Hne.
      exists r'. auto using row_cleared_refl.
Qed.

End Rows.

(** ** Training-to-active monotonicity *)

Lemma issue_loop_training (n : nat) (cfg : Config) (request : MemoryRequest.t)
    (entry : StreamEntry) :
  let entry' := fst (issue_loop n cfg request entry) in
  trainHits entry' = trainHits entry /\ trained entry' = trained entry.
Proof.
  revert entry. induction n as [| n IH]; intros entry; cbn [issue_loop].
  - cbn. auto.
  - specialize (IH (advance cfg entry)).
    destruct (issue_loop n cfg request (advance cfg entry)) as [entry' out].
    cbn [fst] in *. exact IH.
Qed.

(** The Prefetch Issuer writes neither the counter nor the phase flag. *)
Lemma issue_training (cfg : Config) (request : MemoryRequest.t) (entry : StreamEntry) :
  let entry' := fst (fst (issue cfg request entry)) in
  trainHits entry' = trainHits entry /\ trained entry' = trained entry.
Proof.
  unfold issue. destruct (trained entry) eqn:Ht; [| cbn; auto].
  pose proof (issue_loop_training (Z.to_nat (numPrefetches cfg entry))
                cfg request entry) as H.
  destruct (issue_loop _ cfg request entry) as [e1 out]. cbn [fst] in *.
  rewrite Ht in H. unfold slide.
  repeat match goal with |- context [if ?c then _ else _] => destruct c end;
    cbn; exact H.
Qed.

(** The Trainer keeps the counter in range, never clears the phase flag,
    and sets it only with the counter at the threshold or above. *)
Lemma train_training (cfg : Config) (vcla pcla : Z) (entry : StreamEntry) :
  0 <= _numTrains cfg < 2 ^ 31 ->
  entry_ok cfg entry ->
  let entry' := train cfg vcla pcla entry in
  entry_ok cfg entry' /\
  (trained entry = true -> trained entry' = true) /\
  (trained entry = false -> trained entry' = true ->
   _numTrains cfg <= trainHits entry').
Proof.
  intros Hn [Hpos Hlt]. unfold train, entry_ok in *.
  destruct (trained entry) eqn:Ht.
  - rewrite Ht. repeat split; auto; discriminate.
  - specialize (Hlt eq_refl).
    assert (Hinc : int32 (trainHits entry + 1) = trainHits entry + 1)
      by (apply int32_small; lia).
    destruct (allocMissAddress entry <? vcla), (direction entry); cbn;
      destruct (vcla >? ep entry), (vcla <? ep entry); cbn;
      rewrite ?Hinc, ?promotion_test by lia;
      repeat match goal with
             | |- context [if Z.leb ?a ?b then _ else _] =>
                 destruct (Z.leb_spec a b); cbn
             | |- context [if ?c then _ else _] => destruct c; cbn
             end;
      rewrite ?Ht; repeat split; intros; try discriminate; lia.
Qed.

Section Monotone.

Variable pol : TablePolicy.
Variable cfg : Config.

Lemma hit_update_training (request : MemoryRequest.t) (entry : StreamEntry) :
  0 <= _numTrains cfg < 2 ^ 31 ->
  entry_ok cfg entry ->
  let entry' := hit_update cfg request entry in
  entry_ok cfg entry' /\
  (trained entry = true -> trained entry' = true) /\
  (trained entry = false -> trained entry' = true ->
   _numTrains cfg <= trainHits entry').
Proof.
  intros Hn Hok. unfold hit_update.
  set (vcla := VBLOCK_ADDRESS request (_blockSize cfg)).
  set (pcla := PBLOCK_ADDRESS request (_blockSize cfg)).
  destruct (train_training cfg vcla pcla entry Hn Hok) as (Hok' & Hkeep & Hset).
  destruct (issue_training cfg request (train cfg vcla pcla entry)) as [Hh Ht].
  cbn zeta. unfold entry_ok in *. rewrite Hh, Ht. auto.
Qed.

Lemma ProcessRequest_table_ok (request : MemoryRequest.t) (s : state pol) :
  0 <= _numTrains cfg < 2 ^ 31 ->
  table_ok cfg (GenericTable.slots (_streamTable s)) ->
  table_ok cfg
    (GenericTable.slots (_streamTable (after (ProcessRequest pol cfg request s)))).
Proof.
  intros Hn Hok i r' Hi Hv.
  destruct (ProcessRequest_rows pol cfg request s i r' Hi)
    as (r & Hr & [Hc | [(Hvr & Hk & He) | (_ & _ & ->)]]).
  - destruct Hc as (_ & -> & Hvv). apply (Hok i r); auto.
  - rewrite He. apply hit_update_training; [exact Hn |]. apply (Hok i r); auto.
  - cbn. unfold entry_ok. cbn. lia.
Qed.

Lemma run_cons (request : MemoryRequest.t) (rest : list MemoryRequest.t)
    (s : state pol) :
  fst (run pol cfg (request :: rest) s) =
  fst (run pol cfg rest (after (ProcessRequest pol cfg request s))).
Proof.
  cbn [run].
  now destruct (run pol cfg rest (after (ProcessRequest pol cfg request s))).
Qed.

Lemma run_table_ok (requests : list MemoryRequest.t) (s : state pol) :
  0 <= _numTrains cfg < 2 ^ 31 ->
  table_ok cfg (GenericTable.slots (_streamTable s)) ->
  table_ok cfg (GenericTable.slots (_streamTable (fst (run pol cfg requests s)))).
Proof.
  intros Hn. revert s. induction requests as [| request rest IH]; intros s Hok.
  - exact Hok.
  - rewrite run_cons. apply IH. now apply ProcessRequest_table_ok.
Qed.

Lemma StartSimulation_table_ok :
  table_ok cfg (GenericTable.slots (_streamTable (StartSimulation pol cfg))).
Proof.
  intros i r Hi Hv. cbn in Hi.
  apply lookup_replicate in Hi as [-> _]. discriminate.
Qed.

(** C6. In every state a sequence of calls reaches from [StartSimulation],
    and for every further call, each valid row afterwards has a counter that
    is not negative, and is either the row the Allocator just wrote or a row
    that was valid before under the same key, whose phase flag, if it was
    set, is still set, and, if it was clear and is now set, has the counter
    at [_numTrains] or above.  The flag is never cleared, so it is set at
    most once.  ([_numTrains] within the range of [int] keeps the counter
    from overflowing.) *)
Theorem trained_is_monotone
    (requests : list MemoryRequest.t) (request : MemoryRequest.t)
    (i : nat) (r' : row) :
  0 <= _numTrains cfg < 2 ^ 31 ->
  let s := fst (run pol cfg requests (StartSimulation pol cfg)) in
  let s' := after (ProcessRequest pol cfg request s) in
  GenericTable.slots (_streamTable s') !! i = Some r' ->
  valid r' = true ->
  0 <= trainHits (value r') /\
  ((allocates cfg request s = true /\ r' = allocated_row cfg request s) \/
   exists r,
     GenericTable.slots (_streamTable s) !! i = Some r /\
     valid r = true /\ key r' = key r /\
     (trained (value r) = true -> trained (value r') = true) /\
     (trained (value r) = false -> trained (value r') = true ->
      _numTrains cfg <= trainHits (value r'))).
Proof.
  intros Hn s s' Hi Hv.
  assert (Hok : table_ok cfg (GenericTable.slots (_streamTable s))).
  { apply run_table_ok; [exact Hn |]. apply StartSimulation_table_ok. }
  split.
  - apply (ProcessRequest_table_ok request s Hn Hok i r' Hi Hv).
  - destruct (ProcessRequest_rows pol cfg request s i r' Hi)
      as (r & Hr & [Hc | [(Hvr & Hk & He) | (Ha & _ & ->)]]).
    + right. exists r. destruct Hc as (Hk & He & Hvv).
      rewrite He. repeat split; auto. congruence.
    + right. exists r.
      destruct (hit_update_training request (value r) Hn (Hok i r Hr Hvr))
        as (_ & Hkeep & Hset).
      rewrite He. repeat split; auto.
    + left. auto.
Qed.

End Monotone.

Lemma trained_is_monotone_witness :
  let s := fst (run lru default_config
                  [read_at 1000 5096 99 1; read_at 1064 5160 5 2]
                  (StartSimulation lru default_config)) in
  let s' := after (ProcessRequest lru default_config (read_at 1128 5224 5 3) s) in
  exists r',
    GenericTable.slots (_streamTable s') !! O = Some r' /\
    valid r' = true /\ trained (value r') = true /\
    0 <= trainHits (value r') /\
    ((allocates default_config (read_at 1128 5224 5 3) s = true /\
      r' = allocated_row default_config (read_at 1128 5224 5 3) s) \/
     exists r,
       GenericTable.slots (_streamTable s) !! O = Some r /\
       valid r = true /\ key r' = key r /\
       (trained (value r) = true -> trained (value r') = true) /\
       (trained (value r) = false -> trained (value r') = true ->
        _numTrains default_config <= trainHits (value r'))).
Proof.
  intros s s'.
  eexists. split; [vm_compute; reflexivity |].
  split; [reflexivity |]. split; [reflexivity |].
  apply (trained_is_monotone lru default_config
           [read_at 1000 5096 99 1; read_at 1064 5160 5 2]
           (read_at 1128 5224 5 3) O).
  - cbn. lia.
  - vm_compute. reflexivity.
  - reflexivity.
Defined.

(** ** Allocator *)

Lemma free_slot_lt (rows : list row) (i : nat) :
  free_slot rows = Some i -> (i < length rows)%nat.
Proof.
  revert i. induction rows as [| r rows IH]; intros i; cbn [free_slot].
  - discriminate.
  - destruct (valid r).
    + destruct (free_slot rows) as [i' |]; cbn; [| discriminate].
      intros [= <-]. specialize (IH i' eq_refl). cbn. lia.
    + intros [= <-]. cbn. lia.
Qed.

Section Allocator.

Variable pol : TablePolicy.
Variable cfg : Config.

(** The slot an insertion fills is a slot of the table. *)
Lemma insert_slot_lt (tbl : GenericTable.t pol) :
  (0 < length (GenericTable.slots tbl))%nat ->
  (GenericTable.insert_slot tbl < length (GenericTable.slots tbl))%nat.
Proof.
  intros Hn. unfold GenericTable.insert_slot.
  destruct (free_slot (GenericTable.slots tbl)) as [i |] eqn:Hf.
  - now apply free_slot_lt.
  - now apply p_victim_lt.
Qed.

Lemma invalidate_length (k : Z) (tbl : GenericTable.t pol) :
  length (GenericTable.slots (GenericTable.invalidate k tbl)) =
  length (GenericTable.slots tbl).
Proof.
  unfold GenericTable.invalidate.
  destruct (index_of k (GenericTable.slots tbl)); cbn; [| reflexivity].
  apply length_insert.
Qed.

Lemma remove_redundant_from_length (n i : nat) (k : Z) (entry : StreamEntry)
    (tbl : GenericTable.t pol) :
  length (GenericTable.slots (remove_redundant_from pol n i k entry tbl)) =
  length (GenericTable.slots tbl).
Proof.
  revert i tbl. induction n as [| n IH]; intros i tbl; cbn [remove_redundant_from].
  - reflexivity.
  - rewrite IH.
    repeat match goal with |- context [if ?c then _ else _] => destruct c end;
      auto using invalidate_length.
Qed.

Lemma set_length (k : Z) (v : StreamEntry) (tbl : GenericTable.t pol) :
  length (GenericTable.slots (GenericTable.set k v tbl)) =
  length (GenericTable.slots tbl).
Proof.
  unfold GenericTable.set.
  destruct (index_of k (GenericTable.slots tbl)); cbn; [| reflexivity].
  apply length_insert.
Qed.

(** No call changes the number of slots. *)
Lemma ProcessRequest_length (request : MemoryRequest.t) (s : state pol) :
  length (GenericTable.slots (_streamTable (after (ProcessRequest pol cfg request s)))) =
  length (GenericTable.slots (_streamTable s)).
Proof.
  unfold ProcessRequest.
  destruct (ignored cfg request); [reflexivity |].
  destruct (find_stream pol cfg _ (_streamTable s)) as [k |].
  - destruct (GenericTable.get k _) as [entry |]; [| reflexivity].
    destruct (issue cfg request _) as [[entry' out] n]. cbn [after _streamTable].
    unfold remove_redundant.
    now rewrite remove_redundant_from_length, set_length, read_slots.
  - cbn. apply length_insert.
Qed.

Lemma run_length (requests : list MemoryRequest.t) (s : state pol) :
  length (GenericTable.slots (_streamTable (fst (run pol cfg requests s)))) =
  length (GenericTable.slots (_streamTable s)).
Proof.
  revert s. induction requests as [| request rest IH]; intros s.
  - reflexivity.
  - now rewrite run_cons, IH, ProcessRequest_length.
Qed.

(** The running index moves only when the Allocator runs. *)
Lemma ProcessRequest_runningIndex (request : MemoryRequest.t) (s : state pol) :
  _runningIndex (after (ProcessRequest pol cfg request s)) =
  if allocates cfg request s then uint32 (_runningIndex s + 1)
  else _runningIndex s.
Proof.
  unfold ProcessRequest, allocates.
  destruct (ignored cfg request); [reflexivity |]. cbn [negb andb].
  destruct (find_stream pol cfg _ (_streamTable s)) as [k |]; [| reflexivity].
  destruct (GenericTable.get k _) as [entry |]; [| reflexivity].
  now destruct (issue cfg request _) as [[entry' out] n].
Qed.



End Allocator.


(** The step at which the 32-bit [_runningIndex] wraps, on an empty table:
    in a state whose [_runningIndex] is [2 ^ 32 - 1], two misses in a row are
    given the keys 4294967295 and 0, so the second record is inserted under
    a key below one assigned before. *)
Lemma running_index_wraps_to_zero :
  let s := Build_state lru (GenericTable.SetTableParameters lru 16) 4294967295 0 in
  let first := read_at 1000 5096 7 1 in
  let second := read_at 100000 104096 7 2 in
  let s1 := after (ProcessRequest lru default_config first s) in
  let s2 := after (ProcessRequest lru default_config second s1) in
  allocates default_config first s = true /\
  allocates default_config second s1 = true /\
  assigned_keys default_config [first] s = [4294967295] /\
  _runningIndex s1 = 0 /\
  GenericTable.slots (_streamTable s2) !! 1%nat =
    Some {| valid := true; key := 0;
            value := new_entry second 99968 104064 |} /\
  ~ Forall (fun k => k < _runningIndex s1)
      (assigned_keys default_config [first] s).
Proof.
  vm_compute.
  split; [reflexivity |]. split; [reflexivity |]. split; [reflexivity |].
  split; [reflexivity |]. split; [reflexivity |].
  intros H. inversion H as [| k l Hk Hl]. discriminate Hk.
Qed.

(** ** The table stays a map *)

Section Keys.

Variable pol : TablePolicy.
Variable cfg : Config.

(** A valid row after a call either was valid before under the same key or
    is the row the Allocator wrote. *)
Lemma ProcessRequest_valid_row (request : MemoryRequest.t) (s : state pol)
    (i : nat) (r' : row) :
  GenericTable.slots (_streamTable (after (ProcessRequest pol cfg request s))) !! i
    = Some r' ->
  valid r' = true ->
  (exists r, GenericTable.slots (_streamTable s) !! i = Some r /\
             valid r = true /\ key r' = key r) \/
  (allocates cfg request s = true /\
   i = GenericTable.insert_slot (_streamTable s) /\
   key r' = _runningIndex s).
Proof.
  intros Hi Hv.
  destruct (ProcessRequest_rows pol cfg request s i r' Hi)
    as (r & Hr & [(Hk & _ & Hvv) | [(Hvr & Hk & _) | (Ha & Hs & ->)]]).
  - left. exists r. auto.
  - left. exists r. auto.
  - right. auto.
Qed.

Lemma ProcessRequest_keys_ok (request : MemoryRequest.t) (s : state pol) :
  0 <= _runningIndex s -> _runningIndex s + 1 < 2 ^ 32 ->
  keys_ok s -> keys_ok (after (ProcessRequest pol cfg request s)).
Proof.
  intros Hpos Hwrap [Hd Hlt].
  pose proof (ProcessRequest_runningIndex pol cfg request s) as Hri.
  assert (Hmono : allocates cfg request s = true ->
                  _runningIndex (after (ProcessRequest pol cfg request s)) =
                  _runningIndex s + 1).
  { intros Ha. rewrite Hri, Ha. apply uint32_small. lia. }
  assert (Hle : _runningIndex s <=
                _runningIndex (after (ProcessRequest pol cfg request s))).
  { destruct (allocates cfg request s) eqn:Ha.
    - rewrite Hmono by reflexivity. lia.
    - rewrite Hri. lia. }
  split.
  - intros i j ri rj Hi Hj Hvi Hvj Hk.
    destruct (ProcessRequest_valid_row request s i ri Hi Hvi)
      as [(ri0 & Hi0 & Hvi0 & Hki) | (Hai & Hsi & Hki)];
      destruct (ProcessRequest_valid_row request s j rj Hj Hvj)
        as [(rj0 & Hj0 & Hvj0 & Hkj) | (Haj & Hsj & Hkj)].
    + apply (Hd i j ri0 rj0); auto. congruence.
    + specialize (Hlt i ri0 Hi0 Hvi0). lia.
    + specialize (Hlt j rj0 Hj0 Hvj0). lia.
    + congruence.
  - intros i r' Hi Hv.
    destruct (ProcessRequest_valid_row request s i r' Hi Hv)
      as [(r0 & Hi0 & Hv0 & Hk) | (Ha & _ & Hk)].
    + specialize (Hlt i r0 Hi0 Hv0). lia.
    + rewrite Hmono by exact Ha. lia.
Qed.

Lemma StartSimulation_keys_ok : keys_ok (StartSimulation pol cfg).
Proof.
  split.
  - intros i j ri rj Hi Hj Hvi. cbn in Hi.
    apply lookup_replicate in Hi as [-> _]. discriminate.
  - intros i r Hi Hv. cbn in Hi.
    apply lookup_replicate in Hi as [-> _]. discriminate.
Qed.

Lemma run_keys_ok (requests : list MemoryRequest.t) (s : state pol) :
  0 <= _runningIndex s ->
  _runningIndex s + Z.of_nat (length requests) < 2 ^ 32 ->
  keys_ok s -> keys_ok (fst (run pol cfg requests s)).
Proof.
  revert s. induction requests as [| request rest IH]; intros s Hpos Hlen Hok.
  - exact Hok.
  - rewrite run_cons. cbn [length] in Hlen.
    pose proof (ProcessRequest_runningIndex pol cfg request s) as Hri.
    assert (Hstep : _runningIndex (after (ProcessRequest pol cfg request s)) =
                    if allocates cfg request s then _runningIndex s + 1
                    else _runningIndex s).
    { rewrite Hri. destruct (allocates cfg request s); [| reflexivity].
      apply uint32_small. lia. }
    apply IH.
    + rewrite Hstep. destruct (allocates cfg request s); lia.
    + rewrite Hstep. destruct (allocates cfg request s); lia.
    + apply ProcessRequest_keys_ok; auto. lia.
Qed.

(** The keys are distinct in every state that fewer than [2 ^ 32] calls
    reach from [StartSimulation]. *)
Lemma reachable_keys_distinct (requests : list MemoryRequest.t) :
  Z.of_nat (length requests) < 2 ^ 32 ->
  keys_distinct
    (GenericTable.slots
       (_streamTable (fst (run pol cfg requests (StartSimulation pol cfg))))).
Proof.
  intros Hlen.
  apply (run_keys_ok requests (StartSimulation pol cfg)).
  - cbn. lia.
  - cbn. lia.
  - apply StartSimulation_keys_ok.
Qed.

End Keys.

(** ** The spec's scenarios, run *)

(** Scenario 1: the accesses 1000, 1064, 1128 allocate a record at block
    960, train it forward and promote it; four prefetches go out ahead of
    [ep = 1088]. *)
Example scenario_forward :
  let r := run lru default_config
             [read_at 1000 5096 99 1; read_at 1064 5160 5 2; read_at 1128 5224 5 3]
             (StartSimulation lru default_config) in
  map MemoryRequest.virtualAddress (snd r) = [1152; 1216; 1280; 1344] /\
  (value <$> GenericTable.slots (_streamTable (fst r)) !! O) =
    Some {| allocMissAddress := 960; ip := 99; sp := 960; ep := 1344;
            psp := 5056; pep := 5440; trainHits := 2; trained := true;
            direction := FORWARD |} /\
  num_prefetches (fst r) = 4.
Proof. vm_compute. repeat split; reflexivity. Qed.

(** Three accesses to one address: the second and third are backward
    training hits on the anchor, and the record is promoted (and its four
    prefetches move [ep] as [advance] does). *)
Example scenario_same_address :
  let r := run lru default_config
             [read_at 640 4736 7 1; read_at 640 4736 7 2; read_at 640 4736 7 3]
             (StartSimulation lru default_config) in
  GenericTable.slots (_streamTable (fst r)) !! O =
    Some {| valid := true; key := 0;
            value := {| allocMissAddress := 640; ip := 7; sp := 17179871104;
                        ep := 17179869568; psp := 4736; pep := 17179873664;
                        trainHits := 2; trained := true;
                        direction := BACKWARD |} |} /\
  _runningIndex (fst r) = 1 /\
  length (snd r) = 4%nat.
Proof. vm_compute. repeat split. Qed.

(** The step of a backward stream: [BACKWARD * _blockSize] is computed in
    [uint32], so with a 64-bit [addr_t] the end pointer moves up by
    [2 ^ 32 - _blockSize] rather than down by [_blockSize]. *)
Example advance_backward_step :
  ep (advance default_config backward_stream) = 1600 + (2 ^ 32 - 64).
Proof. reflexivity. Qed.

(** A trained backward stream has [ep] below [sp] and so matches no access:
    an access between its end points allocates a second record, and when
    that record advances, the first one, whose extent contains it, stays
    valid. *)
Example scenario_nested_streams :
  let r := run lru default_config
             [read_at 2000 6096 7 1; read_at 1936 6032 7 2; read_at 1872 5968 7 3;
              read_at 17179871424 8192 9 4; read_at 17179871488 8256 9 5]
             (StartSimulation lru default_config) in
  let outer :=
    {| allocMissAddress := 1984; ip := 7; sp := 17179872320; ep := 17179870784;
       psp := 6080; pep := 17179874880; trainHits := 2; trained := true;
       direction := BACKWARD |} in
  let inner :=
    {| allocMissAddress := 17179871424; ip := 9; sp := 17179871424;
       ep := 17179871488; psp := 8192; pep := 8256; trainHits := 1;
       trained := false; direction := FORWARD |} in
  GenericTable.slots (_streamTable (fst r)) !! O =
    Some {| valid := true; key := 0; value := outer |} /\
  GenericTable.slots (_streamTable (fst r)) !! 1%nat =
    Some {| valid := true; key := 1; value := inner |} /\
  extents_intersect inner outer = true.
Proof. vm_compute. repeat split. Qed.

(** * Further properties of the code *)

(** ** Stream Matcher: the training window and the scan *)

Lemma int64_addr (x : Z) : - 2 ^ 63 <= x < 2 ^ 63 -> int64 (addr_t x) = x.
Proof.
  intros H. unfold int64, addr_t, Word.signed, Word.unsigned.
  change (64 - 1) with 63. rewrite Zplus_mod_idemp_l.
  rewrite Z.mod_small; lia.
Qed.

(** X1. A record in training matches exactly the accesses less than
    [_trainAddrDistance] away from its anchor, on either side: the unsigned
    difference goes through [llabs] as the signed distance (lines 219-226),
    for addresses whose difference fits a [long long]. *)
Theorem training_window_symmetric (cfg : Config) (vcla : Z) (entry : StreamEntry) :
  trained entry = false ->
  - 2 ^ 63 <= allocMissAddress entry - vcla < 2 ^ 63 ->
  stream_hit cfg vcla entry = true <->
  Z.abs (allocMissAddress entry - vcla) < _trainAddrDistance cfg.
Proof.
  intros Ht Hr. unfold stream_hit, llabs. rewrite Ht. cbn [negb].
  rewrite int64_addr by exact Hr. apply Z.ltb_lt.
Qed.

Lemma training_window_symmetric_witness :
  (stream_hit default_config 2944 backward_once = true <->
   Z.abs (1984 - 2944) < 1024) /\
  (stream_hit default_config 960 backward_once = true <->
   Z.abs (1984 - 960) < 1024).
Proof.
  split.
  - apply (training_window_symmetric default_config 2944 backward_once).
    + reflexivity.
    + cbn. lia.
  - apply (training_window_symmetric default_config 960 backward_once).
    + reflexivity.
    + cbn. lia.
Defined.

Section Scan.

Variable pol : TablePolicy.
Variable cfg : Config.

(** What the scan from slot [i] over [n] slots returns: the key of the first
    valid row that matches, or nothing when no valid row matches. *)
Lemma find_stream_from_result (n i : nat) (vcla : Z) (tbl : GenericTable.t pol) :
  match find_stream_from pol cfg n i vcla tbl with
  | Some k =>
      exists j r, (i <= j < i + n)%nat /\
        GenericTable.slots tbl !! j = Some r /\ valid r = true /\ key r = k /\
        stream_hit cfg vcla (value r) = true /\
        forall j' r', (i <= j' < j)%nat -> GenericTable.slots tbl !! j' = Some r' ->
                      valid r' = true -> stream_hit cfg vcla (value r') = false
  | None =>
      forall j r, (i <= j < i + n)%nat -> GenericTable.slots tbl !! j = Some r ->
                  valid r = true -> stream_hit cfg vcla (value r) = false
  end.
Proof.
  revert i. induction n as [| n IH]; intros i; cbn [find_stream_from].
  - intros j r Hj. lia.
  - specialize (IH (S i)). unfold GenericTable.entry_at_index.
    destruct (GenericTable.slots tbl !! i) as [r |] eqn:Hi.
    + destruct (valid r) eqn:Hv; cbn [negb].
      * destruct (stream_hit cfg vcla (value r)) eqn:Hh.
        { exists i, r. repeat split; auto; lia. }
        destruct (find_stream_from pol cfg n (S i) vcla tbl) as [k |].
        { destruct IH as (j & rj & Hj & Hrj & Hvj & Hkj & Hhj & Hfirst).
          exists j, rj. repeat split; auto; try lia.
          intros j' r' Hj' Hr' Hv'.
          destruct (decide (j' = i)) as [-> | Hne].
          - rewrite Hi in Hr'. injection Hr' as <-. exact Hh.
          - apply (Hfirst j' r'); auto. lia. }
        intros j rj Hj Hrj Hvj.
        destruct (decide (j = i)) as [-> | Hne].
        { rewrite Hi in Hrj. injection Hrj as <-. exact Hh. }
        apply (IH j rj); auto. lia.
      * destruct (find_stream_from pol cfg n (S i) vcla tbl) as [k |].
        { destruct IH as (j & rj & Hj & Hrj & Hvj & Hkj & Hhj & Hfirst).
          exists j, rj. repeat split; auto; try lia.
          intros j' r' Hj' Hr' Hv'.
          destruct (decide (j' = i)) as [-> | Hne].
          - rewrite Hi in Hr'. injection Hr' as <-. congruence.
          - apply (Hfirst j' r'); auto. lia. }
        intros j rj Hj Hrj Hvj.
        destruct (decide (j = i)) as [-> | Hne].
        { rewrite Hi in Hrj. injection Hrj as <-. congruence. }
        apply (IH j rj); auto. lia.
    + cbn [invalid_row valid negb].
      destruct (find_stream_from pol cfg n (S i) vcla tbl) as [k |].
      { destruct IH as (j & rj & Hj & Hrj & Hvj & Hkj & Hhj & Hfirst).
        exists j, rj. repeat split; auto; try lia.
        intros j' r' Hj' Hr' Hv'.
        destruct (decide (j' = i)) as [-> | Hne].
        - congruence.
        - apply (Hfirst j' r'); auto. lia. }
      intros j rj Hj Hrj Hvj.
      destruct (decide (j = i)) as [-> | Hne]; [congruence |].
      apply (IH j rj); auto. lia.
Qed.

(** X2. The scan of lines 207-237 misses exactly when no valid row among the
    first [_tableSize] slots matches the access, and a hit returns the key
    of the first valid row that matches, in slot order. *)
Theorem find_stream_first_match (vcla : Z) (tbl : GenericTable.t pol) :
  (find_stream pol cfg vcla tbl = None <->
   forall j r, (j < Z.to_nat (_tableSize cfg))%nat ->
               GenericTable.slots tbl !! j = Some r ->
               valid r = true -> stream_hit cfg vcla (value r) = false) /\
  (forall k, find_stream pol cfg vcla tbl = Some k ->
   exists j r, (j < Z.to_nat (_tableSize cfg))%nat /\
     GenericTable.slots tbl !! j = Some r /\ valid r = true /\ key r = k /\
     stream_hit cfg vcla (value r) = true /\
     forall j' r', (j' < j)%nat -> GenericTable.slots tbl !! j' = Some r' ->
                   valid r' = true -> stream_hit cfg vcla (value r') = false).
Proof.
  unfold find_stream.
  pose proof (find_stream_from_result (Z.to_nat (_tableSize cfg)) O vcla tbl) as H.
  destruct (find_stream_from pol cfg (Z.to_nat (_tableSize cfg)) O vcla tbl)
    as [k |].
  - destruct H as (j & r & Hj & Hr & Hv & Hk & Hh & Hfirst). split.
    + split; [discriminate |]. intros Hnone.
      rewrite (Hnone j r) in Hh by (auto; lia). discriminate.
    + intros k' [= <-]. exists j, r. repeat split; auto; try lia.
      intros j' r' Hj'. apply Hfirst. lia.
  - split.
    + split; [| reflexivity]. intros _ j r Hj. apply H. lia.
    + discriminate.
Qed.

End Scan.

(** ** Trainer: a hit in the tracked direction *)

(** X3. A training hit in the direction the record already tracks adds one to
    the counter and moves [ep] only outwards: forward to the larger of [ep]
    and the access, backward to the smaller; [pep] follows [ep]; the anchor
    side stays; the record is promoted when the counter reaches [_numTrains]
    (lines 254-261, 276-283, 296-297). *)
Theorem train_same_direction (cfg : Config) (vcla pcla : Z) (entry : StreamEntry) :
  trained entry = false ->
  direction entry = hit_direction entry vcla ->
  0 <= trainHits entry < 2 ^ 31 - 1 ->
  let entry' := train cfg vcla pcla entry in
  trainHits entry' = trainHits entry + 1 /\
  direction entry' = direction entry /\
  ep entry' = (if is_FORWARD (direction entry) then Z.max (ep entry) vcla
               else Z.min (ep entry) vcla) /\
  pep entry' = (if ep entry' =? ep entry then pep entry else pcla) /\
  sp entry' = sp entry /\ psp entry' = psp entry /\
  allocMissAddress entry' = allocMissAddress entry /\ ip entry' = ip entry /\
  trained entry' = (_numTrains cfg <=? trainHits entry + 1).
Proof.
  intros Ht Hd Hn. unfold train, hit_direction in *. rewrite Ht.
  assert (Hinc : int32 (trainHits entry + 1) = trainHits entry + 1)
    by (apply int32_small; lia).
  assert (Hp : (uint32 (trainHits entry + 1) >=? _numTrains cfg) =
               (_numTrains cfg <=? trainHits entry + 1))
    by (apply promotion_test; lia).
  destruct (allocMissAddress entry <? vcla); rewrite Hd; cbn;
    rewrite ?Z.gtb_ltb;
    match goal with
    | |- context [Z.ltb ?a ?b] => destruct (Z.ltb_spec a b)
    end; cbn; rewrite Hinc, Hp;
    destruct (_numTrains cfg <=? trainHits entry + 1); cbn;
    repeat split; try assumption;
    try (rewrite ?Z.max_l, ?Z.max_r, ?Z.min_l, ?Z.min_r by lia; reflexivity);
    try (rewrite Z.eqb_refl; reflexivity);
    try (destruct (Z.eqb_spec vcla (ep entry)); [lia | reflexivity]).
Qed.

Lemma train_same_direction_witness :
  let entry' := train default_config 1856 5952 backward_once in
  trainHits entry' = 1 + 1 /\
  direction entry' = BACKWARD /\
  ep entry' = Z.min 1920 1856 /\
  pep entry' = (if ep entry' =? 1920 then 6016 else 5952) /\
  sp entry' = 1984 /\ psp entry' = 6080 /\
  allocMissAddress entry' = 1984 /\ ip entry' = 7 /\
  trained entry' = (2 <=? 1 + 1).
Proof.
  apply (train_same_direction default_config 1856 5952 backward_once).
  - reflexivity.
  - reflexivity.
  - cbn. lia.
Defined.

(** ** Prefetch Issuer: the requests of a forward stream *)

Lemma advance_forward_both (cfg : Config) (entry : StreamEntry) :
  0 < _blockSize cfg < 2 ^ 32 ->
  direction entry = FORWARD ->
  0 <= ep entry -> ep entry + _blockSize cfg < 2 ^ 64 ->
  0 <= pep entry -> pep entry + _blockSize cfg < 2 ^ 64 ->
  let entry' := advance cfg entry in
  ep entry' = ep entry + _blockSize cfg /\
  pep entry' = pep entry + _blockSize cfg /\
  direction entry' = FORWARD.
Proof.
  intros Hbs Hd He Hw Hp Hpw. unfold advance. rewrite Hd. cbn.
  rewrite Z.mul_1_l. destruct (_blockSize cfg) eqn:Hb; try lia.
  rewrite <- Hb in *. rewrite uint32_small by lia.
  rewrite !addr_small by lia. auto.
Qed.

Lemma issue_loop_forward_sent (n : nat) (cfg : Config) (request : MemoryRequest.t)
    (entry : StreamEntry) :
  0 < _blockSize cfg < 2 ^ 32 ->
  direction entry = FORWARD ->
  0 <= ep entry -> ep entry + Z.of_nat n * _blockSize cfg < 2 ^ 64 ->
  0 <= pep entry -> pep entry + Z.of_nat n * _blockSize cfg < 2 ^ 64 ->
  snd (issue_loop n cfg request entry) =
  map (fun i => prefetch_at cfg request
                  (ep entry + Z.of_nat i * _blockSize cfg)
                  (pep entry + Z.of_nat i * _blockSize cfg))
      (seq 1 n).
Proof.
  intros Hbs. revert entry.
  induction n as [| n IH]; intros entry Hd He Hw Hp Hpw; cbn [issue_loop].
  - reflexivity.
  - destruct (advance_forward_both cfg entry Hbs Hd He) as (Ha & Hb & Hd');
      [nia | lia | nia |].
    specialize (IH (advance cfg entry) Hd').
    destruct (issue_loop n cfg request (advance cfg entry)) as [entry' out].
    cbn [snd] in *. rewrite IH by (rewrite ?Ha, ?Hb; nia).
    cbn [seq map]. f_equal.
    + unfold make_prefetch, prefetch_at. rewrite Ha, Hb. f_equal; lia.
    + rewrite <- (seq_shift n 1%nat), map_map. apply map_ext. intros i.
      rewrite Ha, Hb. f_equal; lia.
Qed.

(** X5. The prefetches of a trained forward record are the next
    [numPrefetches] blocks after [ep], in ascending order, at the same
    distance after [pep] physically; each is a [PREFETCH] of one block that
    takes its processor, component, cycle, instruction count and
    instruction pointer from the access (lines 318-329, no address
    wrapping). *)
Theorem forward_prefetches_consecutive (cfg : Config) (request : MemoryRequest.t)
    (entry : StreamEntry) :
  0 < _blockSize cfg < 2 ^ 32 ->
  trained entry = true ->
  direction entry = FORWARD ->
  let n := Z.to_nat (numPrefetches cfg entry) in
  0 <= ep entry -> ep entry + Z.of_nat n * _blockSize cfg < 2 ^ 64 ->
  0 <= pep entry -> pep entry + Z.of_nat n * _blockSize cfg < 2 ^ 64 ->
  snd (fst (issue cfg request entry)) =
  map (fun i => prefetch_at cfg request
                  (ep entry + Z.of_nat i * _blockSize cfg)
                  (pep entry + Z.of_nat i * _blockSize cfg))
      (seq 1 n).
Proof.
  intros Hbs Ht Hd n He Hw Hp Hpw. unfold issue. rewrite Ht.
  pose proof (issue_loop_forward_sent n cfg request entry Hbs Hd He Hw Hp Hpw) as H.
  fold n. destruct (issue_loop n cfg request entry) as [e1 out]. exact H.
Qed.

Lemma forward_prefetches_consecutive_witness :
  map (fun p => (MemoryRequest.virtualAddress p, MemoryRequest.physicalAddress p))
    (snd (fst (issue default_config (read_at 700 4796 7 4) narrow_stream))) =
  [(768, 4864); (832, 4928); (896, 4992); (960, 5056)].
Proof.
  rewrite (forward_prefetches_consecutive default_config (read_at 700 4796 7 4)
             narrow_stream).
  - reflexivity.
  - cbn. lia.
  - reflexivity.
  - reflexivity.
  - cbn. lia.
  - vm_compute. reflexivity.
  - cbn. lia.
  - vm_compute. reflexivity.
Defined.

(** ** Prefetch Issuer: virtual and physical end move together *)

Lemma advance_offset (cfg : Config) (entry : StreamEntry) :
  address_offset (pep (advance cfg entry)) (ep (advance cfg entry)) =
  address_offset (pep entry) (ep entry).
Proof.
  unfold advance, address_offset, addr_t, Word.unsigned. cbn.
  rewrite <- Zminus_mod. f_equal. lia.
Qed.

Lemma issue_loop_offset (n : nat) (cfg : Config) (request : MemoryRequest.t)
    (entry : StreamEntry) :
  address_offset (pep (fst (issue_loop n cfg request entry)))
                 (ep (fst (issue_loop n cfg request entry))) =
  address_offset (pep entry) (ep entry) /\
  Forall (fun p => address_offset (MemoryRequest.physicalAddress p)
                     (MemoryRequest.virtualAddress p) =
                   address_offset (pep entry) (ep entry))
    (snd (issue_loop n cfg request entry)).
Proof.
  revert entry. induction n as [| n IH]; intros entry; cbn [issue_loop].
  - cbn. split; [reflexivity | constructor].
  - specialize (IH (advance cfg entry)). rewrite advance_offset in IH.
    destruct (issue_loop n cfg request (advance cfg entry)) as [entry' out].
    cbn [fst snd] in *. destruct IH as [Hfin Hall].
    split; [exact Hfin |]. constructor; [| exact Hall].
    cbn. apply advance_offset.
Qed.

(** X6. The Prefetch Issuer keeps [pep - ep], taken modulo [2 ^ 64], as it
    found it, in either direction, and every prefetch it sends has its
    physical address at that same offset from its virtual address: the two
    end pointers take the same step (lines 319-320) and the slide writes
    neither. *)
Theorem issue_keeps_offset (cfg : Config) (request : MemoryRequest.t)
    (entry : StreamEntry) :
  address_offset (pep (fst (fst (issue cfg request entry))))
                 (ep (fst (fst (issue cfg request entry)))) =
  address_offset (pep entry) (ep entry) /\
  Forall (fun p => address_offset (MemoryRequest.physicalAddress p)
                     (MemoryRequest.virtualAddress p) =
                   address_offset (pep entry) (ep entry))
    (snd (fst (issue cfg request entry))).
Proof.
  unfold issue. destruct (trained entry); [| cbn; split; [reflexivity | constructor]].
  pose proof (issue_loop_offset (Z.to_nat (numPrefetches cfg entry))
                cfg request entry) as H.
  destruct (issue_loop _ cfg request entry) as [e1 out]. cbn [fst snd] in *.
  destruct H as [Hfin Hall]. split; [| exact Hall].
  rewrite <- Hfin. unfold slide.
  repeat match goal with |- context [if ?c then _ else _] => destruct c end;
    reflexivity.
Qed.

(** ** Prefetch Issuer: a forward stream after it has issued *)

(** What the Prefetch Issuer leaves of a trained forward record. *)
Lemma issue_forward_result (cfg : Config) (request : MemoryRequest.t)
    (entry : StreamEntry) :
  wf_config cfg ->
  trained entry = true ->
  direction entry = FORWARD ->
  0 <= sp entry <= ep entry ->
  ep entry + _degree cfg * _blockSize cfg < 2 ^ 64 ->
  let n := Z.of_nat (Z.to_nat (numPrefetches cfg entry)) in
  let entry' := fst (fst (issue cfg request entry)) in
  n <= _degree cfg /\
  ep entry' = ep entry + n * _blockSize cfg /\
  sp entry' = (if _prefetchAddrDistance cfg <? ep entry' - sp entry
               then ep entry' - _prefetchAddrDistance cfg else sp entry) /\
  trained entry' = true /\ direction entry' = FORWARD.
Proof.
  intros (Hbs & _ & _ & _ & Hdist & Hdeg) Ht Hd Hord Hw.
  unfold is_uint32 in *.
  pose proof (numPrefetches_le_degree cfg entry Hdeg) as Hn.
  unfold issue. rewrite Ht. cbn zeta.
  set (n := Z.to_nat (numPrefetches cfg entry)).
  assert (Hnn : Z.of_nat n <= _degree cfg) by lia.
  destruct (issue_loop_forward n cfg request entry Hbs Hd)
    as (He & Hs & Hd' & Ht'); [lia | nia |].
  destruct (issue_loop n cfg request entry) as [e1 out]. cbn [fst] in *.
  assert (Hpad : 0 <= _prefetchAddrDistance cfg)
    by (unfold _prefetchAddrDistance; apply uint32_range).
  unfold slide. rewrite Hd'. cbn [is_FORWARD andb].
  rewrite (addr_small (ep e1 - sp e1)) by nia.
  rewrite Z.gtb_ltb, Hs.
  destruct (Z.ltb_spec (_prefetchAddrDistance cfg) (ep e1 - sp entry)).
  - cbn. rewrite addr_small by nia.
    rewrite (proj2 (Z.ltb_lt _ _) H). rewrite Ht' in *. auto.
  - cbn. rewrite (proj2 (Z.ltb_ge _ _) H). rewrite Ht' in *. auto.
Qed.

(** X7. Once a trained forward record has been through the Prefetch Issuer, its
    room is between 1 and [_distance + 1] blocks, and so the next hit on it
    issues exactly [min (room, _degree)] prefetches: room that is zero or
    negative can only be met on the call that promotes the record (lines
    308-316 after 333-336). *)
Theorem forward_room_after_issue (cfg : Config) (request request' : MemoryRequest.t)
    (entry : StreamEntry) :
  wf_config cfg ->
  _distance cfg * _blockSize cfg < 2 ^ 32 ->
  _distance cfg < 2 ^ 31 - 1 ->
  trained entry = true ->
  direction entry = FORWARD ->
  0 <= sp entry <= ep entry ->
  ep entry + (_degree cfg + _distance cfg + 1) * _blockSize cfg < 2 ^ 64 ->
  let entry' := fst (fst (issue cfg request entry)) in
  1 <= available_room cfg entry' <= _distance cfg + 1 /\
  issue_count cfg request' entry' =
    Z.min (available_room cfg entry') (_degree cfg).
Proof.
  intros Hwf Hpad Hd31 Ht Hd Hord Hw.
  pose proof Hwf as (Hbs & _ & _ & _ & Hdist & Hdeg). unfold is_uint32 in *.
  destruct (issue_forward_result cfg request entry Hwf Ht Hd Hord)
    as (Hn & He & Hs & Ht' & Hd'); [nia |].
  cbn zeta in *.
  set (e' := fst (fst (issue cfg request entry))) in *.
  set (n := Z.of_nat (Z.to_nat (numPrefetches cfg entry))) in *.
  assert (Hpd : _prefetchAddrDistance cfg = _distance cfg * _blockSize cfg)
    by (unfold _prefetchAddrDistance; apply uint32_small; nia).
  rewrite Hpd in Hs.
  assert (Hwin : 0 <= sp e' /\ 0 <= ep e' - sp e' <= _distance cfg * _blockSize cfg).
  { destruct (Z.ltb_spec (_distance cfg * _blockSize cfg) (ep e' - sp entry));
      nia. }
  assert (Hroom : 1 <= available_room cfg e' <= _distance cfg + 1).
  { unfold available_room. rewrite Hd'. cbn [is_FORWARD]. split.
    - apply Z.div_le_lower_bound; lia.
    - apply Z.div_le_upper_bound; nia. }
  split; [exact Hroom |].
  apply issue_count_with_room; auto.
  - nia.
  - rewrite Hd'. cbn [is_FORWARD]. nia.
  - lia.
Qed.

Lemma forward_room_after_issue_witness :
  let entry' := fst (fst (issue default_config (read_at 700 4796 7 4) narrow_stream)) in
  1 <= available_room default_config entry' <= 24 + 1 /\
  issue_count default_config (read_at 900 4996 7 5) entry' =
    Z.min (available_room default_config entry') 4.
Proof.
  apply (forward_room_after_issue default_config (read_at 700 4796 7 4)
           (read_at 900 4996 7 5) narrow_stream).
  - unfold wf_config, is_uint32. cbn. lia.
  - cbn. lia.
  - cbn. lia.
  - reflexivity.
  - reflexivity.
  - cbn. lia.
  - cbn. lia.
Defined.

(** ** Prefetch Issuer: a backward stream *)

Lemma advance_backward (cfg : Config) (entry : StreamEntry) :
  0 < _blockSize cfg < 2 ^ 32 ->
  direction entry = BACKWARD ->
  0 <= ep entry -> ep entry + 2 ^ 32 < 2 ^ 64 ->
  let entry' := advance cfg entry in
  ep entry' = ep entry + (2 ^ 32 - _blockSize cfg) /\ sp entry' = sp entry /\
  direction entry' = BACKWARD /\ trained entry' = trained entry.
Proof.
  intros Hbs Hd He Hw. unfold advance. rewrite Hd. cbn [direction_value].
  assert (Hstep : uint32 (-1 * _blockSize cfg) = 2 ^ 32 - _blockSize cfg).
  { unfold uint32, Word.unsigned.
    rewrite <- (Z.mod_add _ 1) by lia. rewrite Z.mod_small; lia. }
  rewrite Hstep. cbn. rewrite addr_small by lia. auto.
Qed.

Lemma issue_loop_backward (n : nat) (cfg : Config) (request : MemoryRequest.t)
    (entry : StreamEntry) :
  0 < _blockSize cfg < 2 ^ 32 ->
  direction entry = BACKWARD ->
  0 <= ep entry -> ep entry + Z.of_nat n * 2 ^ 32 < 2 ^ 64 ->
  let entry' := fst (issue_loop n cfg request entry) in
  ep entry' = ep entry + Z.of_nat n * (2 ^ 32 - _blockSize cfg) /\
  sp entry' = sp entry /\
  direction entry' = BACKWARD /\ trained entry' = trained entry.
Proof.
  intros Hbs. revert entry.
  induction n as [| n IH]; intros entry Hd He Hw; cbn [issue_loop].
  - cbn. rewrite Z.add_0_r. auto.
  - destruct (advance_backward cfg entry Hbs Hd He) as (Ha & Hs & Hd' & Ht'); [lia |].
    specialize (IH (advance cfg entry) Hd').
    destruct (issue_loop n cfg request (advance cfg entry)) as [entry' out].
    cbn [fst] in *. rewrite Ha, Hs, Ht' in IH.
    destruct IH as (He' & Hs' & Hd'' & Ht''); [lia | lia |].
    rewrite He', Hs', Hd'', Ht''. repeat split; lia.
Qed.

(** X9. With [addr_t] 64 bits wide, the step of a backward stream,
    [BACKWARD * _blockSize], is the [uint32] value [2 ^ 32 - _blockSize]:
    each prefetch moves [ep] up by that much instead of down by a block.
    After a backward record has sent at least one prefetch, the slide puts
    [sp] at [ep + _prefetchAddrDistance], above [ep], and the record matches
    no access any more (lines 313-320, 337-340, 230). *)
Theorem backward_issue_moves_up (cfg : Config) (request : MemoryRequest.t)
    (entry : StreamEntry) :
  wf_config cfg ->
  trained entry = true ->
  direction entry = BACKWARD ->
  0 <= sp entry -> 0 <= ep entry ->
  sp entry - ep entry < 2 ^ 32 - _blockSize cfg ->
  let n := Z.of_nat (Z.to_nat (numPrefetches cfg entry)) in
  1 <= n ->
  ep entry + (n + 1) * 2 ^ 32 < 2 ^ 64 ->
  let entry' := fst (fst (issue cfg request entry)) in
  ep entry' = ep entry + n * (2 ^ 32 - _blockSize cfg) /\
  sp entry' = ep entry' + _prefetchAddrDistance cfg /\
  (0 < _prefetchAddrDistance cfg -> forall a, stream_hit cfg a entry' = false).
Proof.
  intros (Hbs & _) Ht Hd Hsp Hep Hgap n Hn Hw.
  unfold issue. rewrite Ht. cbn zeta. fold n.
  destruct (issue_loop_backward (Z.to_nat (numPrefetches cfg entry))
              cfg request entry Hbs Hd Hep)
    as (He & Hs & Hd' & Ht'); [fold n; lia |]. fold n in He.
  destruct (issue_loop _ cfg request entry) as [e1 out]. cbn [fst] in *.
  assert (Hpad : 0 <= _prefetchAddrDistance cfg < 2 ^ 32)
    by (unfold _prefetchAddrDistance; apply uint32_range).
  assert (Hup : sp e1 < ep e1) by nia.
  assert (Hdiff : addr_t (sp e1 - ep e1) = sp e1 - ep e1 + 2 ^ 64).
  { unfold addr_t, Word.unsigned.
    rewrite <- (Z.mod_add _ 1) by lia. rewrite Z.mod_small; nia. }
  unfold slide. rewrite Hd'. cbn [is_FORWARD is_BACKWARD andb].
  rewrite Hdiff, Z.gtb_ltb.
  destruct (Z.ltb_spec (_prefetchAddrDistance cfg) (sp e1 - ep e1 + 2 ^ 64));
    [| nia].
  cbn. rewrite addr_small by nia.
  split; [exact He |]. split; [reflexivity |].
  intros Hpos a.
  destruct (stream_hit cfg a _) eqn:Hh; [| reflexivity].
  apply stream_hit_trained in Hh; [| cbn; congruence]. cbn in Hh. lia.
Qed.

Lemma backward_issue_moves_up_witness :
  let entry' := fst (fst (issue default_config (read_at 1700 5796 7 4) backward_stream)) in
  ep entry' = 1600 + 4 * (2 ^ 32 - 64) /\
  sp entry' = ep entry' + 1536 /\
  (0 < 1536 -> forall a, stream_hit default_config a entry' = false).
Proof.
  apply (backward_issue_moves_up default_config (read_at 1700 5796 7 4)
           backward_stream).
  - unfold wf_config, is_uint32. cbn. lia.
  - reflexivity.
  - reflexivity.
  - cbn. lia.
  - cbn. lia.
  - cbn. lia.
  - vm_compute. discriminate.
  - vm_compute. reflexivity.
Defined.

(** ** The counter and the number of prefetches of a call *)

Lemma numPrefetches_nonneg (cfg : Config) (entry : StreamEntry) :
  0 <= _degree cfg < 2 ^ 31 -> 0 <= numPrefetches cfg entry.
Proof.
  intros Hd. unfold numPrefetches.
  pose proof (uint32_range (maxPrefetches cfg entry)) as Hm.
  destruct (Z.ltb_spec (uint32 (maxPrefetches cfg entry)) (_degree cfg)).
  - rewrite int32_small; lia.
  - rewrite int32_small; lia.
Qed.

Lemma issue_counter (cfg : Config) (request : MemoryRequest.t) (entry : StreamEntry) :
  0 <= _degree cfg < 2 ^ 31 ->
  snd (issue cfg request entry) =
  Z.of_nat (length (snd (fst (issue cfg request entry)))).
Proof.
  intros Hd. unfold issue. destruct (trained entry); [| reflexivity].
  pose proof (issue_loop_length (Z.to_nat (numPrefetches cfg entry))
                cfg request entry) as Hlen.
  pose proof (numPrefetches_nonneg cfg entry Hd) as Hpos.
  destruct (issue_loop _ cfg request entry) as [e1 out]. cbn [fst snd] in *.
  rewrite Hlen. lia.
Qed.

Section Counter.

Variable pol : TablePolicy.
Variable cfg : Config.

Lemma ProcessRequest_counter (request : MemoryRequest.t) (s : state pol) :
  0 <= _degree cfg < 2 ^ 31 ->
  num_prefetches (after (ProcessRequest pol cfg request s)) =
  num_prefetches s + Z.of_nat (length (sent (ProcessRequest pol cfg request s))).
Proof.
  intros Hd. unfold ProcessRequest.
  destruct (ignored cfg request); [cbn; lia |].
  destruct (find_stream pol cfg _ (_streamTable s)) as [k |]; [| cbn; lia].
  destruct (GenericTable.get k _) as [entry |]; [| cbn; lia].
  pose proof (issue_counter cfg request
                (train cfg (VBLOCK_ADDRESS request (_blockSize cfg))
                   (PBLOCK_ADDRESS request (_blockSize cfg)) entry) Hd) as H.
  destruct (issue cfg request _) as [[entry' out] n]. cbn in *. lia.
Qed.

Lemma run_cons_sent (request : MemoryRequest.t) (rest : list MemoryRequest.t)
    (s : state pol) :
  snd (run pol cfg (request :: rest) s) =
  sent (ProcessRequest pol cfg request s) ++
  snd (run pol cfg rest (after (ProcessRequest pol cfg request s))).
Proof.
  cbn [run].
  now destruct (run pol cfg rest (after (ProcessRequest pol cfg request s))).
Qed.

Lemma run_counter (requests : list MemoryRequest.t) (s : state pol) :
  0 <= _degree cfg < 2 ^ 31 ->
  num_prefetches (fst (run pol cfg requests s)) =
  num_prefetches s + Z.of_nat (length (snd (run pol cfg requests s))).
Proof.
  intros Hd. revert s. induction requests as [| request rest IH]; intros s.
  - cbn. lia.
  - rewrite run_cons, run_cons_sent, IH, length_app, ProcessRequest_counter by exact Hd.
    lia.
Qed.

(** X10. With [_degree] within the range of [int32], the counter
    [num_prefetches] after any sequence of calls since [StartSimulation] is
    the number of prefetch requests sent (lines 304-331). *)
Theorem counter_counts_prefetches (requests : list MemoryRequest.t) :
  0 <= _degree cfg < 2 ^ 31 ->
  num_prefetches (fst (run pol cfg requests (StartSimulation pol cfg))) =
  Z.of_nat (length (snd (run pol cfg requests (StartSimulation pol cfg)))).
Proof.
  intros Hd. rewrite run_counter by exact Hd. cbn. lia.
Qed.

(** X4. A call returns 0 busy cycles and sends at most [_degree] prefetches,
    and it sends any only when the Stream Matcher found a record that is in
    the active phase once the Trainer has run (lines 183-378). *)
Theorem call_sends_at_most_degree (request : MemoryRequest.t) (s : state pol) :
  is_uint32 (_degree cfg) ->
  let o := ProcessRequest pol cfg request s in
  let vcla := VBLOCK_ADDRESS request (_blockSize cfg) in
  let pcla := PBLOCK_ADDRESS request (_blockSize cfg) in
  cycles o = 0 /\
  Z.of_nat (length (sent o)) <= _degree cfg /\
  (sent o <> [] ->
   ignored cfg request = false /\
   exists k entry,
     find_stream pol cfg vcla (_streamTable s) = Some k /\
     GenericTable.get k (_streamTable s) = Some entry /\
     trained (train cfg vcla pcla entry) = true).
Proof.
  intros Hd. cbn zeta. unfold ProcessRequest.
  assert (H0 : 0 <= _degree cfg) by (unfold is_uint32 in Hd; lia).
  destruct (ignored cfg request); [cbn; repeat split; auto; congruence |].
  destruct (find_stream pol cfg _ (_streamTable s)) as [k |] eqn:Hfind;
    [| cbn; repeat split; auto; congruence].
  rewrite read_get.
  destruct (GenericTable.get k (_streamTable s)) as [entry |] eqn:Hget;
    [| cbn; repeat split; auto; congruence].
  set (e1 := train cfg (VBLOCK_ADDRESS request (_blockSize cfg))
               (PBLOCK_ADDRESS request (_blockSize cfg)) entry).
  pose proof (issue_count_le_degree cfg request e1 Hd) as Hle.
  unfold issue_count in Hle.
  assert (Hun : trained e1 = false -> snd (fst (issue cfg request e1)) = []).
  { intros Hf. unfold issue. now rewrite Hf. }
  destruct (issue cfg request e1) as [[entry' out] n]. cbn [fst snd] in *.
  cbn [cycles sent]. split; [reflexivity |]. split; [exact Hle |].
  intros Hne. split; [reflexivity |].
  exists k, entry.
  split; [first [reflexivity | exact Hfind] |].
  split; [first [reflexivity | exact Hget] |].
  destruct (trained e1) eqn:He1; [exact He1 |]. now specialize (Hun eq_refl).
Qed.

End Counter.

Lemma counter_counts_prefetches_witness :
  let r := run lru default_config
             [read_at 1000 5096 99 1; read_at 1064 5160 5 2; read_at 1128 5224 5 3]
             (StartSimulation lru default_config) in
  num_prefetches (fst r) = Z.of_nat (length (snd r)) /\ length (snd r) = 4%nat.
Proof.
  split.
  - apply (counter_counts_prefetches lru default_config). cbn. lia.
  - vm_compute. reflexivity.
Defined.

Lemma call_sends_at_most_degree_witness :
  let s := fst (run lru default_config
                  [read_at 1000 5096 99 1; read_at 1064 5160 5 2]
                  (StartSimulation lru default_config)) in
  let o := ProcessRequest lru default_config (read_at 1128 5224 5 3) s in
  cycles o = 0 /\ Z.of_nat (length (sent o)) <= 4 /\ sent o <> [].
Proof.
  intros s o.
  destruct (call_sends_at_most_degree lru default_config (read_at 1128 5224 5 3) s)
    as (Hc & Hle & _).
  - unfold is_uint32. cbn. lia.
  - split; [exact Hc | split; [exact Hle | vm_compute; discriminate]].
Defined.

(** ** Read-for-write accesses *)

Lemma issue_loop_set_type (n : nat) (cfg : Config) (ty : MemoryRequest.Type_)
    (request : MemoryRequest.t) (entry : StreamEntry) :
  issue_loop n cfg (set_type ty request) entry = issue_loop n cfg request entry.
Proof.
  revert entry. induction n as [| n IH]; intros entry; cbn [issue_loop].
  - reflexivity.
  - now rewrite IH.
Qed.

(** X11. With [_prefetchOnWrite] set, a read-for-write access does to the
    members and sends exactly what the same access would as a plain read:
    past the two early returns the type of the request is not looked at
    again (lines 192-196). *)
Theorem read_for_write_as_read (pol : TablePolicy) (cfg : Config)
    (request : MemoryRequest.t) (s : state pol) :
  _prefetchOnWrite cfg = true ->
  MemoryRequest.type request = MemoryRequest.READ_FOR_WRITE ->
  ProcessRequest pol cfg request s =
  ProcessRequest pol cfg (set_type MemoryRequest.READ request) s.
Proof.
  intros Hw Hty. unfold ProcessRequest, ignored. rewrite Hty, Hw. cbn [negb].
  change (MemoryRequest.type (set_type MemoryRequest.READ request))
    with MemoryRequest.READ. cbn iota.
  change (VBLOCK_ADDRESS (set_type MemoryRequest.READ request) (_blockSize cfg))
    with (VBLOCK_ADDRESS request (_blockSize cfg)).
  change (PBLOCK_ADDRESS (set_type MemoryRequest.READ request) (_blockSize cfg))
    with (PBLOCK_ADDRESS request (_blockSize cfg)).
  destruct (find_stream pol cfg _ (_streamTable s)) as [k |]; [| reflexivity].
  destruct (GenericTable.get k _) as [entry |]; [| reflexivity].
  unfold issue. rewrite issue_loop_set_type. reflexivity.
Qed.

Lemma read_for_write_as_read_witness :
  let cfg := {| _blockSize := 64; _prefetchOnWrite := true; _tableSize := 16;
                _numTrains := 2; _trainDistance := 16; _distance := 24;
                _degree := 4 |} in
  let request := set_type MemoryRequest.READ_FOR_WRITE (read_at 1128 5224 5 3) in
  let s := fst (run lru cfg [read_at 1000 5096 99 1; read_at 1064 5160 5 2]
                  (StartSimulation lru cfg)) in
  ProcessRequest lru cfg request s =
  ProcessRequest lru cfg (set_type MemoryRequest.READ request) s /\
  length (sent (ProcessRequest lru cfg request s)) = 4%nat.
Proof.
  intros cfg request s. split.
  - apply (read_for_write_as_read lru cfg request s); reflexivity.
  - vm_compute. reflexivity.
Defined.

(** ** What a record keeps for life *)

Lemma train_fixed (cfg : Config) (vcla pcla : Z) (entry : StreamEntry) :
  let entry' := train cfg vcla pcla entry in
  allocMissAddress entry' = allocMissAddress entry /\ ip entry' = ip entry /\
  sp entry' = sp entry /\ psp entry' = psp entry.
Proof.
  unfold train. destruct (trained entry); [cbn; auto |].
  destruct (allocMissAddress entry <? vcla), (direction entry); cbn;
    repeat match goal with |- context [if ?c then _ else _] => destruct c; cbn end;
    auto.
Qed.

Lemma issue_loop_fixed (n : nat) (cfg : Config) (request : MemoryRequest.t)
    (entry : StreamEntry) :
  let entry' := fst (issue_loop n cfg request entry) in
  allocMissAddress entry' = allocMissAddress entry /\ ip entry' = ip entry /\
  psp entry' = psp entry /\ direction entry' = direction entry.
Proof.
  revert entry. induction n as [| n IH]; intros entry; cbn [issue_loop].
  - cbn. auto.
  - specialize (IH (advance cfg entry)).
    destruct (issue_loop n cfg request (advance cfg entry)) as [entry' out].
    cbn [fst] in *. exact IH.
Qed.

Lemma issue_fixed (cfg : Config) (request : MemoryRequest.t) (entry : StreamEntry) :
  let entry' := fst (fst (issue cfg request entry)) in
  allocMissAddress entry' = allocMissAddress entry /\ ip entry' = ip entry /\
  psp entry' = psp entry /\ direction entry' = direction entry.
Proof.
  unfold issue. destruct (trained entry); [| cbn; auto].
  pose proof (issue_loop_fixed (Z.to_nat (numPrefetches cfg entry))
                cfg request entry) as H.
  destruct (issue_loop _ cfg request entry) as [e1 out]. cbn [fst] in *.
  unfold slide.
  repeat match goal with |- context [if ?c then _ else _] => destruct c end;
    cbn; exact H.
Qed.

Lemma hit_update_fixed (cfg : Config) (request : MemoryRequest.t)
    (entry : StreamEntry) :
  let entry' := hit_update cfg request entry in
  allocMissAddress entry' = allocMissAddress entry /\ ip entry' = ip entry /\
  psp entry' = psp entry /\
  (trained entry = true ->
   trained entry' = true /\ direction entry' = direction entry /\
   trainHits entry' = trainHits entry).
Proof.
  unfold hit_update.
  set (vcla := VBLOCK_ADDRESS request (_blockSize cfg)).
  set (pcla := PBLOCK_ADDRESS request (_blockSize cfg)).
  destruct (train_fixed cfg vcla pcla entry) as (Ha & Hi & _ & Hp).
  destruct (issue_fixed cfg request (train cfg vcla pcla entry))
    as (Ha' & Hi' & Hp' & Hd').
  destruct (issue_training cfg request (train cfg vcla pcla entry)) as (Hh' & Ht').
  cbn zeta. rewrite Ha', Hi', Hp', Ha, Hi, Hp. repeat split.
  - rewrite Ht'. unfold train. now rewrite H.
  - rewrite Hd'. unfold train. now rewrite H.
  - rewrite Hh'. unfold train. now rewrite H.
Qed.

(** X12. Across a call, a row that is valid afterwards and was not just written
    by the Allocator was valid before under the same key, with the same
    anchor, the same stored instruction pointer and the same [psp] (which
    the slide of [sp] never follows); if its record was in the active
    phase, direction and training counter are unchanged as well (lines
    247-341: none of these fields is assigned outside the Allocator and the
    training block). *)
Theorem record_fields_fixed (pol : TablePolicy) (cfg : Config)
    (request : MemoryRequest.t) (s : state pol) (i : nat) (r' : row) :
  GenericTable.slots (_streamTable (after (ProcessRequest pol cfg request s))) !! i
    = Some r' ->
  valid r' = true ->
  (allocates cfg request s = true /\ r' = allocated_row cfg request s) \/
  exists r,
    GenericTable.slots (_streamTable s) !! i = Some r /\
    valid r = true /\ key r' = key r /\
    allocMissAddress (value r') = allocMissAddress (value r) /\
    ip (value r') = ip (value r) /\
    psp (value r') = psp (value r) /\
    (trained (value r) = true ->
     trained (value r') = true /\
     direction (value r') = direction (value r) /\
     trainHits (value r') = trainHits (value r)).
Proof.
  intros Hi Hv.
  destruct (ProcessRequest_rows pol cfg request s i r' Hi)
    as (r & Hr & [(Hk & He & Hvv) | [(Hvr & Hk & He) | (Ha & _ & ->)]]).
  - right. exists r. rewrite He. repeat split; auto.
  - right. exists r.
    destruct (hit_update_fixed cfg request (value r)) as (Ha & Hp & Hs & Ht).
    rewrite He. repeat split; auto; now apply Ht.
  - left. auto.
Qed.

Lemma record_fields_fixed_witness :
  let s := fst (run lru default_config
                  [read_at 1000 5096 99 1; read_at 1064 5160 5 2;
                   read_at 1128 5224 5 3]
                  (StartSimulation lru default_config)) in
  let request := read_at 1300 5396 11 4 in
  exists r',
    GenericTable.slots (_streamTable (after (ProcessRequest lru default_config request s))) !! O
      = Some r' /\
    ep (value r') = 1600 /\
    ((allocates default_config request s = true /\
      r' = allocated_row default_config request s) \/
     exists r,
       GenericTable.slots (_streamTable s) !! O = Some r /\
       valid r = true /\ key r' = key r /\
       allocMissAddress (value r') = allocMissAddress (value r) /\
       ip (value r') = ip (value r) /\
       psp (value r') = psp (value r) /\
       (trained (value r) = true ->
        trained (value r') = true /\
        direction (value r') = direction (value r) /\
        trainHits (value r') = trainHits (value r))).
Proof.
  intros s request.
  exists {| valid := true; key := 0;
            value := {| allocMissAddress := 960; ip := 99; sp := 960; ep := 1600;
                        psp := 5056; pep := 5696; trainHits := 2;
                        trained := true; direction := FORWARD |} |}.
  split; [vm_compute; reflexivity |]. split; [reflexivity |].
  apply (record_fields_fixed lru default_config request s O).
  - vm_compute. reflexivity.
  - reflexivity.
Defined.

(** ** The shape of the records of a reachable state *)

Lemma train_shape (cfg : Config) (vcla pcla : Z) (entry : StreamEntry) :
  entry_shape entry -> entry_shape (train cfg vcla pcla entry).
Proof.
  intros Hsh. unfold train.
  destruct (trained entry) eqn:Ht; [exact Hsh |].
  destruct Hsh as (Hs & Hn & Hf & Hb).
  specialize (Hs Ht). specialize (Hf Ht). specialize (Hb Ht).
  unfold entry_shape.
  destruct (Z.ltb_spec (allocMissAddress entry) vcla);
    destruct (direction entry) eqn:Hd; cbn; rewrite ?Z.gtb_ltb;
    repeat match goal with
           | |- context [if Z.ltb ?a ?b then _ else _] =>
               destruct (Z.ltb_spec a b); cbn
           | |- context [if ?c then _ else _] => destruct c; cbn
           end;
    repeat split; intros; try discriminate; try congruence;
    try specialize (Hf eq_refl); try specialize (Hb eq_refl); lia.
Qed.

Lemma issue_shape (cfg : Config) (request : MemoryRequest.t) (entry : StreamEntry) :
  entry_shape entry -> entry_shape (fst (fst (issue cfg request entry))).
Proof.
  intros Hsh. destruct (trained entry) eqn:Ht.
  - destruct (issue_training cfg request entry) as [_ Ht'].
    destruct (issue_fixed cfg request entry) as (_ & _ & _ & Hd').
    destruct Hsh as (_ & Hn & _ & _). rewrite Ht in Ht'.
    unfold entry_shape. rewrite Ht', Hd'.
    repeat split; intros; try discriminate;
      destruct (Hn ltac:(assumption)); congruence.
  - unfold issue. rewrite Ht. exact Hsh.
Qed.

Section Shape.

Variable pol : TablePolicy.
Variable cfg : Config.

Lemma ProcessRequest_shape (request : MemoryRequest.t) (s : state pol) :
  (forall i r, GenericTable.slots (_streamTable s) !! i = Some r ->
               valid r = true -> entry_shape (value r)) ->
  forall i r,
    GenericTable.slots (_streamTable (after (ProcessRequest pol cfg request s))) !! i
      = Some r ->
    valid r = true -> entry_shape (value r).
Proof.
  intros Hall i r' Hi Hv.
  destruct (ProcessRequest_rows pol cfg request s i r' Hi)
    as (r & Hr & [(Hk & He & Hvv) | [(Hvr & Hk & He) | (Ha & _ & ->)]]).
  - rewrite He. apply (Hall i r); auto.
  - rewrite He. unfold hit_update. apply issue_shape, train_shape.
    apply (Hall i r); auto.
  - cbn. unfold entry_shape. cbn. repeat split; intros; try discriminate; lia.
Qed.

(** X13. In every state a sequence of calls reaches from [StartSimulation], each
    valid record in training has [sp] at its anchor, with [ep] above the
    anchor if it tracks forward and at or below it if it tracks backward;
    a record with direction [NONE] is exactly as allocated (counter 0,
    [ep] at the anchor), so every record that had a hit, and every trained
    record, has a direction (lines 250-298, 363-372). *)
Theorem reachable_record_shape (requests : list MemoryRequest.t) (i : nat) (r : row) :
  GenericTable.slots
    (_streamTable (fst (run pol cfg requests (StartSimulation pol cfg)))) !! i
    = Some r ->
  valid r = true ->
  entry_shape (value r).
Proof.
  assert (Hrun : forall s,
             (forall i r, GenericTable.slots (_streamTable s) !! i = Some r ->
                          valid r = true -> entry_shape (value r)) ->
             forall i r,
               GenericTable.slots (_streamTable (fst (run pol cfg requests s))) !! i
                 = Some r ->
               valid r = true -> entry_shape (value r)).
  { induction requests as [| request rest IH]; intros s Hall.
    - exact Hall.
    - rewrite run_cons. apply IH. now apply ProcessRequest_shape. }
  apply Hrun. intros j r0 Hj Hv0. cbn in Hj.
  apply lookup_replicate in Hj as [-> _]. discriminate.
Qed.

End Shape.

Lemma reachable_record_shape_witness :
  entry_shape
    {| allocMissAddress := 1984; ip := 7; sp := 1984; ep := 1920;
       psp := 6080; pep := 6016; trainHits := 1; trained := false;
       direction := BACKWARD |}.
Proof.
  apply (reachable_record_shape lru default_config
           [read_at 2000 6096 7 1; read_at 1936 6032 7 2] O
           {| valid := true; key := 0;
              value := {| allocMissAddress := 1984; ip := 7; sp := 1984;
                          ep := 1920; psp := 6080; pep := 6016; trainHits := 1;
                          trained := false; direction := BACKWARD |} |}).
  - vm_compute. reflexivity.
  - reflexivity.
Defined.

(** ** Misses *)

Section Misses.

Variable pol : TablePolicy.
Variable cfg : Config.

(** What a call does when the Stream Matcher finds nothing. *)
Lemma ProcessRequest_miss (request : MemoryRequest.t) (s : state pol) :
  allocates cfg request s = true ->
  ProcessRequest pol cfg request s =
  {| cycles := 0;
     after := {| _streamTable :=
                   GenericTable.insert (_runningIndex s)
                     (new_entry request (VBLOCK_ADDRESS request (_blockSize cfg))
                        (PBLOCK_ADDRESS request (_blockSize cfg)))
                     (_streamTable s);
                 _runningIndex := uint32 (_runningIndex s + 1);
                 num_prefetches := num_prefetches s |};
     sent := [] |}.
Proof.
  unfold allocates, ProcessRequest.
  destruct (ignored cfg request); [discriminate |]. cbn [negb andb].
  destruct (find_stream pol cfg _ (_streamTable s)); [discriminate |].
  reflexivity.
Qed.

Lemma allocates_iff (request : MemoryRequest.t) (s : state pol) :
  allocates cfg request s = true <->
  ignored cfg request = false /\
  find_stream pol cfg (VBLOCK_ADDRESS request (_blockSize cfg)) (_streamTable s)
    = None.
Proof.
  unfold allocates.
  destruct (ignored cfg request), (find_stream pol cfg _ (_streamTable s));
    cbn; intuition congruence.
Qed.

Lemma reachable_length (requests : list MemoryRequest.t) :
  length (GenericTable.slots
            (_streamTable (fst (run pol cfg requests (StartSimulation pol cfg))))) =
  Z.to_nat (_tableSize cfg).
Proof. rewrite run_length. cbn. apply length_replicate. Qed.

(** X14. Accessing the same block again right after a miss hits the record the
    miss allocated: with a training window that is not empty, the Stream
    Matcher returns the key the Allocator used, so the second access
    allocates nothing (lines 207-237 after 360-375). *)
Theorem repeated_miss_hits_new_record
    (requests : list MemoryRequest.t) (request : MemoryRequest.t) :
  0 < _tableSize cfg ->
  0 < _trainAddrDistance cfg ->
  let s := fst (run pol cfg requests (StartSimulation pol cfg)) in
  allocates cfg request s = true ->
  let s' := after (ProcessRequest pol cfg request s) in
  find_stream pol cfg (VBLOCK_ADDRESS request (_blockSize cfg)) (_streamTable s')
    = Some (_runningIndex s) /\
  allocates cfg request s' = false.
Proof.
  intros Hsize Htad s Halloc s'.
  set (vcla := VBLOCK_ADDRESS request (_blockSize cfg)).
  set (pcla := PBLOCK_ADDRESS request (_blockSize cfg)).
  pose proof (reachable_length requests) as Hlen. fold s in Hlen.
  pose proof (insert_slot_lt pol (_streamTable s)) as Hi.
  rewrite Hlen in Hi. specialize (Hi ltac:(lia)).
  set (i := GenericTable.insert_slot (_streamTable s)) in *.
  apply allocates_iff in Halloc as Hmiss. destruct Hmiss as [Hig Hnone].
  fold vcla in Hnone.
  assert (Hold : forall j r, (j < Z.to_nat (_tableSize cfg))%nat ->
             GenericTable.slots (_streamTable s) !! j = Some r ->
             valid r = true -> stream_hit cfg vcla (value r) = false).
  { pose proof (find_stream_from_result pol cfg (Z.to_nat (_tableSize cfg)) O
                  vcla (_streamTable s)) as H.
    unfold find_stream in Hnone. rewrite Hnone in H.
    intros j r Hj. apply H. lia. }
  assert (Hs' : GenericTable.slots (_streamTable s') =
                <[i := {| valid := true; key := _runningIndex s;
                          value := new_entry request vcla pcla |}]>
                  (GenericTable.slots (_streamTable s))).
  { unfold s'. rewrite (ProcessRequest_miss request s Halloc). reflexivity. }
  assert (Hfind : find_stream pol cfg vcla (_streamTable s') =
                  Some (_runningIndex s)).
  { unfold find_stream.
    replace (Z.to_nat (_tableSize cfg))
      with (i + S (Z.to_nat (_tableSize cfg) - S i))%nat by lia.
    rewrite find_stream_from_skip.
    - cbn [Nat.add].
      apply (find_stream_from_stop pol cfg _ _ vcla (_streamTable s')
               {| valid := true; key := _runningIndex s;
                  value := new_entry request vcla pcla |}).
      + rewrite Hs'. apply list_lookup_insert_eq. lia.
      + reflexivity.
      + unfold stream_hit, new_entry. cbn. rewrite Z.sub_diag.
        change (llabs (addr_t 0)) with 0. now apply Z.ltb_lt.
    - intros j r Hj Hr Hv. rewrite Hs' in Hr.
      rewrite list_lookup_insert_ne in Hr by lia.
      apply (Hold j r); auto. lia. }
  split; [exact Hfind |].
  unfold allocates. fold vcla. rewrite Hfind. apply andb_false_r.
Qed.

End Misses.

Lemma repeated_miss_hits_new_record_witness :
  let requests := [read_at 1000 5096 99 1; read_at 1064 5160 5 2] in
  let request := read_at 100000 104096 11 3 in
  let s := fst (run lru default_config requests (StartSimulation lru default_config)) in
  let s' := after (ProcessRequest lru default_config request s) in
  find_stream lru default_config 99968 (_streamTable s') = Some 1 /\
  allocates default_config request s' = false.
Proof.
  intros requests request s s'.
  apply (repeated_miss_hits_new_record lru default_config requests request).
  - reflexivity.
  - reflexivity.
  - vm_compute. reflexivity.
Defined.

(** ** A training window of no width *)

Lemma stream_hit_no_window (cfg : Config) (vcla : Z) (entry : StreamEntry) :
  _trainAddrDistance cfg = 0 -> trained entry = false ->
  stream_hit cfg vcla entry = false.
Proof.
  intros Htad Ht. unfold stream_hit, llabs. rewrite Ht, Htad. cbn [negb].
  apply Z.ltb_ge. apply Z.abs_nonneg.
Qed.

Section NoWindow.

Variable pol : TablePolicy.
Variable cfg : Config.

Lemma find_stream_untouched (vcla : Z) (tbl : GenericTable.t pol) :
  _trainAddrDistance cfg = 0 ->
  all_untouched (GenericTable.slots tbl) ->
  find_stream pol cfg vcla tbl = None.
Proof.
  intros Htad Hall. unfold find_stream.
  rewrite <- (Nat.add_0_r (Z.to_nat (_tableSize cfg))).
  rewrite find_stream_from_skip; [reflexivity |].
  intros j r _ Hr Hv. apply stream_hit_no_window; [exact Htad |].
  now destruct (Hall j r Hr Hv).
Qed.

Lemma ProcessRequest_untouched (request : MemoryRequest.t) (s : state pol) :
  _trainAddrDistance cfg = 0 ->
  all_untouched (GenericTable.slots (_streamTable s)) ->
  all_untouched
    (GenericTable.slots (_streamTable (after (ProcessRequest pol cfg request s)))) /\
  sent (ProcessRequest pol cfg request s) = [] /\
  allocates cfg request s = negb (ignored cfg request).
Proof.
  intros Htad Hall.
  pose proof (find_stream_untouched (VBLOCK_ADDRESS request (_blockSize cfg))
                (_streamTable s) Htad Hall) as Hnone.
  assert (Ha : allocates cfg request s = negb (ignored cfg request)).
  { unfold allocates. rewrite Hnone. apply andb_true_r. }
  destruct (ignored cfg request) eqn:Hig.
  - unfold ProcessRequest. rewrite Hig. cbn. auto.
  - rewrite (ProcessRequest_miss pol cfg request s Ha). cbn [after sent _streamTable].
    split; [| split; [reflexivity | exact Ha]].
    intros i r Hi Hv. unfold GenericTable.insert in Hi. cbn [GenericTable.slots] in Hi.
    destruct (decide (GenericTable.insert_slot (_streamTable s) = i)) as [Heq | Hne].
    + apply list_lookup_insert_Some in Hi as [(_ & <- & _) | (Hne & _)];
        [cbn; auto | congruence].
    + rewrite list_lookup_insert_ne in Hi by exact Hne. apply (Hall i r); auto.
Qed.

(** X15. When [_trainDistance * _blockSize] is 0 as a [uint32] (a train distance
    of 0, or a product that is a multiple of [2 ^ 32]), no record ever gets
    a training hit: after any sequence of calls since [StartSimulation]
    nothing has been sent, every valid record is as allocated, and every
    request that is not ignored allocates a record (lines 162, 220). *)
Theorem no_training_window_no_prefetch
    (requests : list MemoryRequest.t) (request : MemoryRequest.t) :
  _trainAddrDistance cfg = 0 ->
  let r := run pol cfg requests (StartSimulation pol cfg) in
  snd r = [] /\
  all_untouched (GenericTable.slots (_streamTable (fst r))) /\
  allocates cfg request (fst r) = negb (ignored cfg request).
Proof.
  intros Htad.
  assert (Hrun : forall s,
             all_untouched (GenericTable.slots (_streamTable s)) ->
             snd (run pol cfg requests s) = [] /\
             all_untouched
               (GenericTable.slots (_streamTable (fst (run pol cfg requests s))))).
  { induction requests as [| rq rest IH]; intros s Hall.
    - cbn. auto.
    - destruct (ProcessRequest_untouched rq s Htad Hall) as (Hall' & Hsent & _).
      destruct (IH _ Hall') as [Hs Ha].
      rewrite run_cons, run_cons_sent, Hsent, Hs. auto. }
  cbn zeta.
  destruct (Hrun (StartSimulation pol cfg)) as [Hs Hall].
  { intros i r Hi Hv. cbn in Hi.
    apply lookup_replicate in Hi as [-> _]. discriminate. }
  split; [exact Hs | split; [exact Hall |]].
  now destruct (ProcessRequest_untouched request _ Htad Hall) as (_ & _ & Ha).
Qed.

End NoWindow.

Lemma no_training_window_no_prefetch_witness :
  let cfg := {| _blockSize := 64; _prefetchOnWrite := false; _tableSize := 16;
                _numTrains := 2; _trainDistance := 67108864; _distance := 24;
                _degree := 4 |} in
  let r := run lru cfg [read_at 1000 5096 99 1; read_at 1064 5160 5 2;
                        read_at 1128 5224 5 3]
             (StartSimulation lru cfg) in
  snd r = [] /\ _runningIndex (fst r) = 3.
Proof.
  intros cfg r. split.
  - apply (no_training_window_no_prefetch lru cfg
             [read_at 1000 5096 99 1; read_at 1064 5160 5 2; read_at 1128 5224 5 3]
             (read_at 0 0 0 0)).
    reflexivity.
  - vm_compute. reflexivity.
Defined.

(** ** Keys *)

Section KeySequence.

Variable pol : TablePolicy.
Variable cfg : Config.

Lemma run_keys_from (requests : list MemoryRequest.t) (s : state pol) :
  0 <= _runningIndex s ->
  _runningIndex s + Z.of_nat (length requests) < 2 ^ 32 ->
  let ks := assigned_keys cfg requests s in
  ks = map (fun i => _runningIndex s + Z.of_nat i) (seq 0 (length ks)) /\
  _runningIndex (fst (run pol cfg requests s)) =
    _runningIndex s + Z.of_nat (length ks).
Proof.
  revert s. induction requests as [| request rest IH]; intros s Hpos Hlen.
  - cbn. split; [reflexivity | lia].
  - cbn zeta. rewrite run_cons. cbn [assigned_keys length] in *.
    pose proof (ProcessRequest_runningIndex pol cfg request s) as Hri.
    set (s1 := after (ProcessRequest pol cfg request s)) in *.
    destruct (allocates cfg request s).
    + rewrite uint32_small in Hri by lia.
      destruct (IH s1) as [Hks Hfin]; [lia | lia |].
      set (ks := assigned_keys cfg rest s1) in *.
      cbn [app length seq map]. split.
      * f_equal; [lia |]. rewrite Hks at 1.
        rewrite <- (seq_shift (length ks) 0%nat), map_map.
        apply map_ext. intros i. lia.
      * rewrite Hfin. lia.
    + destruct (IH s1) as [Hks Hfin]; [lia | lia |].
      cbn [app]. rewrite Hri in Hks, Hfin. auto.
Qed.

(** X16. Through fewer than [2 ^ 32] calls since [StartSimulation], the keys the
    Allocator assigns are 0, 1, 2, ... in the order of allocation, and
    [_runningIndex] is the number of records allocated so far (lines 160,
    373-374). *)
Theorem assigned_keys_count_up (requests : list MemoryRequest.t) :
  Z.of_nat (length requests) < 2 ^ 32 ->
  let ks := assigned_keys cfg requests (StartSimulation pol cfg) in
  ks = map Z.of_nat (seq 0 (length ks)) /\
  _runningIndex (fst (run pol cfg requests (StartSimulation pol cfg))) =
    Z.of_nat (length ks).
Proof.
  intros Hlen.
  destruct (run_keys_from requests (StartSimulation pol cfg)) as [Hks Hfin];
    [cbn; lia | cbn; lia |].
  cbn zeta in *. split.
  - rewrite Hks at 1. apply map_ext. intros i. cbn. lia.
  - rewrite Hfin. cbn. lia.
Qed.

End KeySequence.

Lemma assigned_keys_count_up_witness :
  let requests := [read_at 1000 5096 99 1; read_at 1064 5160 5 2;
                   read_at 100000 104096 11 3; read_at 200000 204096 11 4] in
  let ks := assigned_keys default_config requests (StartSimulation lru default_config) in
  (ks = map Z.of_nat (seq 0 (length ks)) /\
   _runningIndex (fst (run lru default_config requests
                         (StartSimulation lru default_config))) =
     Z.of_nat (length ks)) /\
  ks = [0; 1; 2].
Proof.
  intros requests ks. split.
  - apply (assigned_keys_count_up lru default_config requests). cbn. lia.
  - vm_compute. reflexivity.
Defined.

(** ** Reading a record back *)

Lemma index_of_first (k : Z) (rows : list row) (i : nat) (r : row) :
  rows !! i = Some r -> valid r = true -> key r = k ->
  exists j, index_of k rows = Some j.
Proof.
  revert i. induction rows as [| r0 rows IH]; intros i Hi Hv Hk.
  - discriminate.
  - cbn [index_of]. destruct (valid r0 && (key r0 =? k)) eqn:Hc; [eauto |].
    destruct i as [| i].
    + cbn in Hi. injection Hi as ->. subst k.
      rewrite Hv, Z.eqb_refl in Hc. discriminate.
    + cbn in Hi. destruct (IH i Hi Hv Hk) as [j Hj]. rewrite Hj. cbn. eauto.
Qed.

(** Replacing a row by one that answers the test for [k] the same way does
    not move the slot of [k]. *)
Lemma index_of_insert (k : Z) (rows : list row) (j : nat) (r r' : row) :
  rows !! j = Some r ->
  valid r' && (key r' =? k) = valid r && (key r =? k) ->
  index_of k (<[j := r']> rows) = index_of k rows.
Proof.
  revert j. induction rows as [| r0 rows IH]; intros j Hj Hsame.
  - discriminate.
  - destruct j as [| j].
    + cbn in Hj. injection Hj as ->.
      change (<[O := r']> (r :: rows)) with (r' :: rows).
      cbn [index_of]. now rewrite Hsame.
    + cbn in Hj.
      change (<[S j := r']> (r0 :: rows)) with (r0 :: <[j := r']> rows).
      cbn [index_of]. now rewrite (IH j Hj Hsame).
Qed.

Section ReadBack.

Variable pol : TablePolicy.
Variable cfg : Config.

Lemma get_set (k : Z) (v entry : StreamEntry) (tbl : GenericTable.t pol) :
  GenericTable.get k tbl = Some entry ->
  GenericTable.get k (GenericTable.set k v tbl) = Some v.
Proof.
  intros Hget. destruct (get_lookup pol k tbl entry Hget)
    as (j & r & Hj & Hr & Hv & Hk & _).
  unfold GenericTable.set, GenericTable.get. rewrite Hj.
  unfold GenericTable.entry_at_index. rewrite Hr. cbn [GenericTable.slots].
  rewrite (index_of_insert k _ j r) by (auto; reflexivity).
  rewrite Hj. cbn.
  rewrite list_lookup_insert_eq by (eapply lookup_lt_Some; eauto). reflexivity.
Qed.

Lemma get_invalidate_other (k k' : Z) (tbl : GenericTable.t pol) :
  k' <> k ->
  GenericTable.get k (GenericTable.invalidate k' tbl) = GenericTable.get k tbl.
Proof.
  intros Hne. unfold GenericTable.invalidate.
  destruct (index_of k' (GenericTable.slots tbl)) as [j |] eqn:Hj; [| reflexivity].
  destruct (index_of_lookup _ _ _ Hj) as (r & Hr & Hv & Hk).
  unfold GenericTable.get, GenericTable.entry_at_index. rewrite Hr.
  cbn [GenericTable.slots].
  assert (Htest : (key r =? k) = false) by (apply Z.eqb_neq; congruence).
  rewrite (index_of_insert k _ j r) by (auto; cbn; rewrite Htest; now destruct (valid r)).
  destruct (index_of k (GenericTable.slots tbl)) as [i |] eqn:Hi; [| reflexivity].
  cbn. destruct (index_of_lookup _ _ _ Hi) as (ri & Hri & _ & Hki).
  rewrite list_lookup_insert_ne; [reflexivity |].
  intros ->. rewrite Hr in Hri. injection Hri as <-. congruence.
Qed.

Lemma get_remove_redundant_from (n i : nat) (k : Z) (entry : StreamEntry)
    (tbl : GenericTable.t pol) :
  GenericTable.get k (remove_redundant_from pol n i k entry tbl) =
  GenericTable.get k tbl.
Proof.
  revert i tbl. induction n as [| n IH]; intros i tbl; cbn [remove_redundant_from].
  - reflexivity.
  - rewrite IH.
    destruct (negb (valid (GenericTable.entry_at_index i tbl))); [reflexivity |].
    destruct (Z.eqb_spec (key (GenericTable.entry_at_index i tbl)) k);
      [reflexivity |].
    destruct (redundant entry (value (GenericTable.entry_at_index i tbl)));
      [| reflexivity].
    now apply get_invalidate_other.
Qed.

Lemma find_stream_get (vcla : Z) (tbl : GenericTable.t pol) (k : Z) :
  find_stream pol cfg vcla tbl = Some k ->
  exists entry, GenericTable.get k tbl = Some entry.
Proof.
  intros Hfind.
  pose proof (find_stream_from_result pol cfg (Z.to_nat (_tableSize cfg)) O
                vcla tbl) as H.
  unfold find_stream in Hfind. rewrite Hfind in H.
  destruct H as (j & r & _ & Hr & Hv & Hk & _).
  destruct (index_of_first k _ j r Hr Hv Hk) as [j' Hj'].
  destruct (index_of_lookup _ _ _ Hj') as (r' & Hr' & _).
  exists (value r'). unfold GenericTable.get. rewrite Hj'. cbn. now rewrite Hr'.
Qed.

(** X17. On a hit, the key the Stream Matcher returns always maps to a record
    (the lookup cannot fail), and after the call the same key maps to that
    record as Trainer and Prefetch Issuer left it: the redundancy pass never
    invalidates the record that was hit.  The running index does not move
    (lines 242-358). *)
Theorem hit_record_read_back (request : MemoryRequest.t) (s : state pol) (k : Z) :
  ignored cfg request = false ->
  find_stream pol cfg (VBLOCK_ADDRESS request (_blockSize cfg)) (_streamTable s)
    = Some k ->
  let o := ProcessRequest pol cfg request s in
  exists entry,
    GenericTable.get k (_streamTable s) = Some entry /\
    GenericTable.get k (_streamTable (after o)) =
      Some (hit_update cfg request entry) /\
    _runningIndex (after o) = _runningIndex s.
Proof.
  intros Hig Hfind. cbn zeta.
  destruct (find_stream_get _ _ _ Hfind) as [entry Hget].
  exists entry. split; [exact Hget |].
  unfold ProcessRequest. rewrite Hig, Hfind, read_get, Hget.
  unfold hit_update.
  destruct (issue cfg request _) as [[entry' out] n]. cbn [fst after _streamTable
    _runningIndex].
  split; [| reflexivity].
  unfold remove_redundant. rewrite get_remove_redundant_from.
  apply get_set with (entry := entry). now rewrite read_get.
Qed.

(** X18. After a miss, with fewer than [2 ^ 32] calls since [StartSimulation]
    and a table of at least one slot, the key the Allocator used maps to
    the record it built (lines 360-375). *)
Theorem allocated_record_read_back
    (requests : list MemoryRequest.t) (request : MemoryRequest.t) :
  0 < _tableSize cfg ->
  Z.of_nat (length requests) < 2 ^ 32 ->
  let s := fst (run pol cfg requests (StartSimulation pol cfg)) in
  allocates cfg request s = true ->
  GenericTable.get (_runningIndex s)
    (_streamTable (after (ProcessRequest pol cfg request s))) =
  Some (new_entry request (VBLOCK_ADDRESS request (_blockSize cfg))
          (PBLOCK_ADDRESS request (_blockSize cfg))).
Proof.
  intros Hsize Hlen s Halloc.
  rewrite (ProcessRequest_miss pol cfg request s Halloc). cbn [after _streamTable].
  destruct (run_keys_ok pol cfg requests (StartSimulation pol cfg)) as [_ Hlt];
    [cbn; lia | cbn; lia | apply StartSimulation_keys_ok |]. fold s in Hlt.
  pose proof (reachable_length pol cfg requests) as Hlen'. fold s in Hlen'.
  pose proof (insert_slot_lt pol (_streamTable s)) as Hi.
  rewrite Hlen' in Hi. specialize (Hi ltac:(lia)). rewrite <- Hlen' in Hi.
  set (i := GenericTable.insert_slot (_streamTable s)) in *.
  set (e := new_entry request _ _).
  unfold GenericTable.get, GenericTable.insert. cbn [GenericTable.slots]. fold i.
  set (rows := <[i := {| valid := true; key := _runningIndex s; value := e |}]>
                 (GenericTable.slots (_streamTable s))).
  assert (Hrow : rows !! i = Some {| valid := true; key := _runningIndex s;
                                     value := e |})
    by (apply list_lookup_insert_eq; exact Hi).
  destruct (index_of_first (_runningIndex s) rows i _ Hrow eq_refl eq_refl)
    as [j Hj].
  rewrite Hj. cbn.
  destruct (index_of_lookup _ _ _ Hj) as (rj & Hrj & Hvj & Hkj).
  destruct (decide (j = i)) as [-> | Hne].
  - rewrite Hrow. reflexivity.
  - unfold rows in Hrj. rewrite list_lookup_insert_ne in Hrj by auto.
    specialize (Hlt j rj Hrj Hvj). lia.
Qed.

End ReadBack.

Lemma hit_record_read_back_witness :
  let s := fst (run lru default_config
                  [read_at 1000 5096 99 1; read_at 1064 5160 5 2]
                  (StartSimulation lru default_config)) in
  let request := read_at 1128 5224 5 3 in
  exists entry,
    GenericTable.get 0 (_streamTable s) = Some entry /\
    GenericTable.get 0 (_streamTable (after (ProcessRequest lru default_config request s))) =
      Some (hit_update default_config request entry) /\
    _runningIndex (after (ProcessRequest lru default_config request s)) =
      _runningIndex s.
Proof.
  intros s request.
  apply (hit_record_read_back lru default_config request s 0).
  - reflexivity.
  - vm_compute. reflexivity.
Defined.

Lemma allocated_record_read_back_witness :
  let requests := [read_at 1000 5096 99 1; read_at 1064 5160 5 2] in
  let request := read_at 100000 104096 11 3 in
  let s := fst (run lru default_config requests (StartSimulation lru default_config)) in
  GenericTable.get (_runningIndex s)
    (_streamTable (after (ProcessRequest lru default_config request s))) =
  Some (new_entry request 99968 104064).
Proof.
  intros requests request s.
  apply (allocated_record_read_back lru default_config requests request).
  - reflexivity.
  - cbn. lia.
  - vm_compute. reflexivity.
Defined.

(** ** Prefetch Issuer: a forward window only moves forward *)

(** X8. The Prefetch Issuer never moves a trained forward record backwards:
    [ep] grows by one block per prefetch sent, and [sp] either stays or is
    pulled up to [ep - _prefetchAddrDistance] (lines 318-336, no address
    wrapping). *)
Theorem forward_window_advances (cfg : Config) (request : MemoryRequest.t)
    (entry : StreamEntry) :
  wf_config cfg ->
  trained entry = true ->
  direction entry = FORWARD ->
  0 <= sp entry <= ep entry ->
  ep entry + _degree cfg * _blockSize cfg < 2 ^ 64 ->
  let entry' := fst (fst (issue cfg request entry)) in
  sp entry <= sp entry' /\
  ep entry' = ep entry + issue_count cfg request entry * _blockSize cfg /\
  ep entry <= ep entry'.
Proof.
  intros Hwf Ht Hd Hord Hw.
  pose proof Hwf as (Hbs & _).
  destruct (issue_forward_result cfg request entry Hwf Ht Hd Hord Hw)
    as (Hn & He & Hs & _ & _).
  cbn zeta in *. rewrite issue_count_trained by exact Ht.
  replace (Z.max 0 (numPrefetches cfg entry))
    with (Z.of_nat (Z.to_nat (numPrefetches cfg entry))) by lia.
  split; [| split; [exact He | nia]].
  rewrite Hs.
  destruct (Z.ltb_spec (_prefetchAddrDistance cfg)
              (ep (fst (fst (issue cfg request entry))) - sp entry)); lia.
Qed.

Lemma forward_window_advances_witness :
  let entry :=
    {| allocMissAddress := 960; ip := 99; sp := 960; ep := 2432;
       psp := 5056; pep := 6528; trainHits := 2; trained := true;
       direction := FORWARD |} in
  let entry' := fst (fst (issue default_config (read_at 1100 5196 7 4) entry)) in
  960 <= sp entry' /\
  ep entry' = 2432 + issue_count default_config (read_at 1100 5196 7 4) entry * 64 /\
  2432 <= ep entry'.
Proof.
  intros entry.
  apply (forward_window_advances default_config (read_at 1100 5196 7 4) entry).
  - unfold wf_config, is_uint32. cbn. lia.
  - reflexivity.
  - reflexivity.
  - cbn. lia.
  - cbn. lia.
Defined.

(** ** The running index wraps *)

Section KeyWrap.

Variable pol : TablePolicy.






End KeyWrap.

